(** * ush: the raw-mode terminal decoder and the line editor

    A shallow embedding of the two vendored packages the shell is built on:
    - [term]   (terminal controller: raw mode, decode loop, output primitives)
    - [prompt] (line editor: history browsing, tab completion)

    Go values are modelled as follows.
    - [int], [rune], [Key], [Color] and the termios flag words are [Z];
    - a Go [string] is a byte sequence, here a Rocq [string] (8-bit characters);
    - a slice that the code compares with [nil] is an [option (list _)];
    - a run-time panic is the [Panic] outcome of the [M] monad;
    - writes to the terminal are recorded, call by call, in an output log. *)

From Stdlib Require Import ZArith List String Ascii Bool Lia Btauto.
Import ListNotations.

Local Open Scope Z_scope.

(* ================================================================== *)
(** * Go strings, runes and UTF-8 *)
(* ================================================================== *)

Module GoString.

Definition rune := Z.

Definition byte_of_ascii (a : ascii) : Z := Z.of_N (N_of_ascii a).
Definition ascii_of_byte (b : Z) : ascii := ascii_of_N (Z.to_N b).

Definition bytes (s : string) : list Z :=
  map byte_of_ascii (list_ascii_of_string s).

Definition of_bytes (l : list Z) : string :=
  string_of_list_ascii (map ascii_of_byte l).

(** [len(s)]: the number of bytes. *)
Definition len (s : string) : Z := Z.of_nat (String.length s).

(** [s[:i]] for [0 <= i <= len(s)]. *)
Definition prefix (s : string) (i : Z) : string :=
  String.substring 0 (Z.to_nat i) s.

Definition RuneError : rune := 0xFFFD.

(** [string(r)] for an integer or rune [r]: the UTF-8 encoding of the code
    point, and the encoding of U+FFFD when [r] is not a valid code point. *)
Definition encodeRune (r : Z) : list Z :=
  if (r <? 0) || (0x10FFFF <? r) || ((0xD800 <=? r) && (r <=? 0xDFFF))
  then [0xEF; 0xBF; 0xBD]
  else if r <=? 0x7F then [r]
  else if r <=? 0x7FF then
    [Z.lor 0xC0 (Z.shiftr r 6); Z.lor 0x80 (Z.land r 0x3F)]
  else if r <=? 0xFFFF then
    [Z.lor 0xE0 (Z.shiftr r 12);
     Z.lor 0x80 (Z.land (Z.shiftr r 6) 0x3F);
     Z.lor 0x80 (Z.land r 0x3F)]
  else
    [Z.lor 0xF0 (Z.shiftr r 18);
     Z.lor 0x80 (Z.land (Z.shiftr r 12) 0x3F);
     Z.lor 0x80 (Z.land (Z.shiftr r 6) 0x3F);
     Z.lor 0x80 (Z.land r 0x3F)].

Definition of_rune (r : Z) : string := of_bytes (encodeRune r).

(** [string(rs)] for [rs []rune]. *)
Definition of_runes (rs : list rune) : string :=
  of_bytes (flat_map encodeRune rs).

Definition continuation (b : Z) : bool := (0x80 <=? b) && (b <=? 0xBF).

(** [utf8.DecodeRuneInString]: the first code point of a byte sequence and
    its width; an invalid or truncated encoding is U+FFFD of width 1. *)
Definition decodeRune (s : list Z) : rune * nat :=
  match s with
  | [] => (RuneError, 0%nat)
  | s0 :: t =>
    if s0 <? 0x80 then (s0, 1%nat)
    else if (s0 <? 0xC2) || (0xF4 <? s0) then (RuneError, 1%nat)
    else
      let lo := if s0 =? 0xE0 then 0xA0 else if s0 =? 0xF0 then 0x90 else 0x80 in
      let hi := if s0 =? 0xED then 0x9F else if s0 =? 0xF4 then 0x8F else 0xBF in
      match t with
      | [] => (RuneError, 1%nat)
      | s1 :: t1 =>
        if (s1 <? lo) || (hi <? s1) then (RuneError, 1%nat)
        else if s0 <? 0xE0 then
          (Z.lor (Z.shiftl (Z.land s0 0x1F) 6) (Z.land s1 0x3F), 2%nat)
        else
          match t1 with
          | [] => (RuneError, 1%nat)
          | s2 :: t2 =>
            if negb (continuation s2) then (RuneError, 1%nat)
            else if s0 <? 0xF0 then
              (Z.lor (Z.shiftl (Z.land s0 0x0F) 12)
                 (Z.lor (Z.shiftl (Z.land s1 0x3F) 6) (Z.land s2 0x3F)), 3%nat)
            else
              match t2 with
              | [] => (RuneError, 1%nat)
              | s3 :: _ =>
                if negb (continuation s3) then (RuneError, 1%nat)
                else
                  (Z.lor (Z.shiftl (Z.land s0 0x07) 18)
                     (Z.lor (Z.shiftl (Z.land s1 0x3F) 12)
                        (Z.lor (Z.shiftl (Z.land s2 0x3F) 6) (Z.land s3 0x3F))),
                   4%nat)
              end
          end
      end
  end.

(** [for i, c := range s]: the pairs (byte index of a code point, code
    point), in order.  The fuel is the number of bytes left, which is
    enough because every iteration advances by at least one byte. *)
Fixpoint rangeFrom (fuel : nat) (i : Z) (s : list Z) : list (Z * rune) :=
  match fuel with
  | O => []
  | S fuel' =>
    match s with
    | [] => []
    | _ :: _ =>
      let (c, w) := decodeRune s in
      (i, c) :: rangeFrom fuel' (i + Z.of_nat w) (skipn w s)
    end
  end.

Definition range (s : string) : list (Z * rune) :=
  rangeFrom (List.length (bytes s)) 0 (bytes s).

(** [[]rune(s)]. *)
Definition runes (s : string) : list rune := map snd (range s).

(** [strings.Join(elems, sep)]. *)
Fixpoint Join (elems : list string) (sep : string) : string :=
  match elems with
  | [] => EmptyString
  | [e] => e
  | e :: rest => (e ++ sep ++ Join rest sep)%string
  end.

(** [strings.Repeat(s, count)] for [count >= 0] (a negative count panics;
    the caller checks). *)
Fixpoint Repeat (s : string) (count : nat) : string :=
  match count with
  | O => EmptyString
  | S n => (s ++ Repeat s n)%string
  end.

End GoString.

(* ================================================================== *)
(** * Package term: keys, events and the decode loop *)
(* ================================================================== *)

Module Term.

Import GoString.

Definition Key := Z.

Definition KeyNull : Key := 0.
Definition KeyCtrlC : Key := 3.
Definition KeyCtrlD : Key := 4.
Definition KeyTab : Key := 9.
Definition KeyNl : Key := 10.
Definition KeyCtrlL : Key := 12.
Definition KeyCr : Key := 13.
Definition KeyCtrlU : Key := 21.
Definition KeyCtrlZ : Key := 26.
Definition KeyEsc : Key := 27.
Definition KeyBackspace : Key := 127.

(** The second constant block: [KeyRune Key = iota + 1000] and the
    constants after it, one more each. *)
Definition KeyRune : Key := 1000.
Definition KeyUnknown : Key := 1001.
Definition KeyLeft : Key := 1002.
Definition KeyRight : Key := 1003.
Definition KeyUp : Key := 1004.
Definition KeyDown : Key := 1005.
Definition KeyHome : Key := 1006.
Definition KeyEnd : Key := 1007.
Definition KeyInsert : Key := 1008.
Definition KeyDel : Key := 1009.
Definition KeyPageUp : Key := 1010.
Definition KeyPageDown : Key := 1011.
Definition KeyShiftTab : Key := 1027.

Inductive EventType := EventKey | EventResize.

(** [type Event struct { Type EventType; Key Key; Rune rune }]; a field
    left out of a composite literal is zero. *)
Record Event := mkEvent { evType : EventType; evKey : Key; evRune : rune }.

Definition keyEvent (k : Key) : Event := mkEvent EventKey k 0.
Definition runeEvent (r : rune) : Event := mkEvent EventKey KeyRune r.
Definition resizeEvent : Event := mkEvent EventResize 0 0.

(** [seq[lo:hi]] for [lo <= hi <= len(seq)]. *)
Definition slice {A} (seq : list A) (lo hi : nat) : list A :=
  firstn (hi - lo) (skipn lo seq).

(** The first [switch]: [string(seq[i+1 : i+3])]. *)
Definition switch2 (s : string) : Key :=
  if String.eqb s "[A" then KeyUp
  else if String.eqb s "[B" then KeyDown
  else if String.eqb s "[C" then KeyRight
  else if String.eqb s "[D" then KeyLeft
  else if String.eqb s "[H" then KeyHome
  else if String.eqb s "[F" then KeyEnd
  else if String.eqb s "[Z" then KeyShiftTab
  else if String.eqb s "OH" then KeyHome
  else if String.eqb s "OF" then KeyEnd
  else KeyUnknown.

(** The second [switch]: [string(seq[i+1 : i+4])]. *)
Definition switch3 (s : string) : Key :=
  if String.eqb s "[3~" then KeyDel
  else if String.eqb s "[5~" then KeyPageUp
  else if String.eqb s "[6~" then KeyPageDown
  else KeyUnknown.

(** What one iteration of [for i < len(seq)] at index [i] sends on
    [t.events], and the next value of [i]. *)
Definition decodeAt (seq : list rune) (i : nat) (r : rune) : Event * nat :=
  if r =? KeyEsc then
    let rest := List.length (skipn (i + 1) seq) in
    let key2 :=
      if (2 <=? rest)%nat then switch2 (of_runes (slice seq (i + 1) (i + 3)))
      else KeyUnknown in
    if negb (key2 =? KeyUnknown) then (keyEvent key2, (i + 4)%nat)
    else
      let key3 :=
        if (3 <=? rest)%nat then switch3 (of_runes (slice seq (i + 1) (i + 4)))
        else KeyUnknown in
      if negb (key3 =? KeyUnknown) then (keyEvent key3, (i + 5)%nat)
      else (* r = rune(KeyEsc); goto normal *)
        (runeEvent KeyEsc, (i + 1)%nat)
  else if (r <? 27) || (r =? 127) then (keyEvent r, (i + 1)%nat)
  else (runeEvent r, (i + 1)%nat).

(** [i := 0; for i < len(seq) { ... }].  Every iteration increases [i], so
    [len(seq)] iterations are enough. *)
Fixpoint decodeLoop (fuel : nat) (seq : list rune) (i : nat) : list Event :=
  match fuel with
  | O => []
  | S fuel' =>
    match nth_error seq i with
    | None => []
    | Some r =>
      let (ev, i') := decodeAt seq i r in
      ev :: decodeLoop fuel' seq i'
    end
  end.

(** The events sent for one gathered sequence [seq]: the first rune received
    and the runes that arrived before the 50 ms timer fired. *)
Definition decodeSeq (seq : list rune) : list Event :=
  decodeLoop (List.length seq) seq 0.

(* ---------------------------------------------------------------- *)
(** ** The decode loop seen from the runes that are left *)

(** What an iteration does with the rune [r] at index [i], as a function of
    the runes after it: the event sent, and how many of those runes the
    jump of [i] passes over. *)
Definition decodeHead (r : rune) (rest : list rune) : Event * nat :=
  if r =? KeyEsc then
    let key2 :=
      if (2 <=? List.length rest)%nat then switch2 (of_runes (firstn 2 rest))
      else KeyUnknown in
    if negb (key2 =? KeyUnknown) then (keyEvent key2, 3%nat)
    else
      let key3 :=
        if (3 <=? List.length rest)%nat then switch3 (of_runes (firstn 3 rest))
        else KeyUnknown in
      if negb (key3 =? KeyUnknown) then (keyEvent key3, 4%nat)
      else (runeEvent KeyEsc, 0%nat)
  else if (r <? 27) || (r =? 127) then (keyEvent r, 0%nat)
  else (runeEvent r, 0%nat).

Fixpoint decodeSuffix (fuel : nat) (l : list rune) : list Event :=
  match fuel, l with
  | S fuel', r :: rest =>
    let (ev, k) := decodeHead r rest in
    ev :: decodeSuffix fuel' (skipn k rest)
  | _, _ => []
  end.

(** The event of a rune that is not part of a recognized sequence: a
    control key below 27 and at 127, a rune event otherwise. *)
Definition ordinary (r : rune) : Event :=
  if (r <? 27) || (r =? 127) then keyEvent r else runeEvent r.

(** The runes after an escape rune start with a recognized two-rune or
    three-rune pattern. *)
Definition recognized (rest : list rune) : bool :=
  ((2 <=? List.length rest)%nat
   && negb (switch2 (of_runes (firstn 2 rest)) =? KeyUnknown))
  || ((3 <=? List.length rest)%nat
      && negb (switch3 (of_runes (firstn 3 rest)) =? KeyUnknown)).

(** No escape rune of the sequence is followed by a recognized pattern. *)
Fixpoint plain (seq : list rune) : Prop :=
  match seq with
  | [] => True
  | r :: rest => (r = KeyEsc -> recognized rest = false) /\ plain rest
  end.

(* ---------------------------------------------------------------- *)
(** ** The session: [Start], [Stop] and the output primitives *)

(** The run-time panics of the two packages, by the place they arise:
    [s.p.history[s.historyIndex]], [[]rune(bestOption)[i]],
    [strings.Repeat] with a negative count, [close] and a nil [inBuffer]. *)
Inductive panic :=
| HistoryIndexOutOfRange
| RuneIndexOutOfRange
| NegativeRepeatCount
| CloseOfNilChannel
| CloseOfClosedChannel
| NilDereference.

Inductive result (A : Type) :=
| Ok (a : A)
| Panic (p : panic).
Arguments Ok {A} a.
Arguments Panic {A} p.

(** [syscall.Termios], embedded in [termios]. *)
Record termios := mkTermios {
  Iflag : Z; Oflag : Z; Cflag : Z; Lflag : Z;
  Cc : list Z; Ispeed : Z; Ospeed : Z }.

(** The flag bits of package [syscall] that [Start] uses; their values
    depend on the platform and are taken as a parameter. *)
Record flagbits := mkFlagbits {
  IGNBRK : Z; BRKINT : Z; PARMRK : Z; ISTRIP : Z; INLCR : Z; IGNCR : Z;
  ICRNL : Z; IXON : Z; OPOST : Z; CS8 : Z; CSIZE : Z; PARENB : Z;
  ECHO : Z; ECHONL : Z; ICANON : Z; ISIG : Z; IEXTEN : Z }.

(** The values on linux/amd64. *)
Definition linuxBits : flagbits :=
  mkFlagbits 0x1 0x2 0x8 0x20 0x40 0x80 0x100 0x400 0x1 0x30 0x30 0x100
             0x8 0x40 0x2 0x1 0x8000.

Definition cloneMode (mode : termios) : termios :=
  mkTermios (Iflag mode) (Oflag mode) (Cflag mode) (Lflag mode)
            (Cc mode) (Ispeed mode) (Ospeed mode).

(** The raw mode [Start] builds from the clone; [x &^= y] is [Z.ldiff]. *)
Definition rawMode (b : flagbits) (original : termios) : termios :=
  let mode := cloneMode original in
  mkTermios
    (Z.ldiff (Iflag mode)
       (Z.lor (IGNBRK b) (Z.lor (BRKINT b) (Z.lor (PARMRK b) (Z.lor (ISTRIP b)
          (Z.lor (INLCR b) (Z.lor (IGNCR b) (Z.lor (ICRNL b) (IXON b)))))))))
    (Z.ldiff (Oflag mode) (OPOST b))
    (Z.ldiff (Z.lor (Cflag mode) (CS8 b)) (Z.lor (CSIZE b) (PARENB b)))
    (Z.ldiff (Lflag mode)
       (Z.lor (ECHO b) (Z.lor (ECHONL b) (Z.lor (ICANON b)
          (Z.lor (ISIG b) (IEXTEN b))))))
    (Cc mode) (Ispeed mode) (Ospeed mode).

(** The character device: its mode attributes, its window size (columns,
    rows) and whether SIGWINCH is routed to the session's channel. *)
Record Device := mkDevice {
  devMode : termios;
  devCols : Z;
  devRows : Z;
  devNotify : bool }.

(** Which system calls succeed. *)
Record syscalls := mkSyscalls {
  openOK : bool;       (* os.OpenFile("/dev/tty", ...) *)
  getattrOK : bool;    (* ioctl termGetTermios *)
  setattrOK : bool;    (* ioctl termSetTermios *)
  winsizeOK : bool }.  (* ioctl TIOCGWINSZ *)

Inductive chan := chanNil | chanOpen | chanClosed.

(** What [t.inBuffer] reads from. *)
Inductive source := fromTty | fromNopReader.

(** [type Terminal struct]; [written] is not a field of the struct: it
    records every call of [Puts], format string and arguments. *)
Record Terminal := mkTerminal {
  in_ : bool;                      (* t.in != nil *)
  inBuffer : option source;
  out_ : bool;                     (* t.out != nil *)
  runes_ : chan;
  events_ : chan;
  running : bool;
  originalMode : option termios;
  sigwinch : chan;
  Width : Z;
  Height : Z;
  written : list (string * list Z) }.

Definition NewTerminal : Terminal :=
  mkTerminal false None false chanNil chanNil false None chanNil 0 0 [].

Definition ESC : string := String "027"%char EmptyString.

Definition termClear : string := (ESC ++ "[H" ++ ESC ++ "[J")%string.
Definition termShowCursor : string := (ESC ++ "[?25h")%string.
Definition termSetCursorColumn : string := (ESC ++ "[%dG")%string.

(** [t.Puts(f, args...)]. *)
Definition Puts (f : string) (args : list Z) (t : Terminal) : Terminal :=
  mkTerminal (in_ t) (inBuffer t) (out_ t) (runes_ t) (events_ t) (running t)
             (originalMode t) (sigwinch t) (Width t) (Height t)
             (written t ++ [(f, args)]).

Definition Clear (t : Terminal) : Terminal := Puts termClear [] t.
Definition ShowCursor (t : Terminal) : Terminal := Puts termShowCursor [] t.
Definition SetCursorColumn (x : Z) (t : Terminal) : Terminal :=
  Puts termSetCursorColumn [x + 1] t.

Inductive error :=
| OpenError
| FetchModeError
| SetModeError
| WindowSizeError.

(** [setMode(fd, mode)]: the device takes the mode when the ioctl succeeds;
    it fails on a closed file and on a nil mode. *)
Definition setMode (sc : syscalls) (fdOK : bool) (mode : option termios)
           (d : Device) : bool * Device :=
  match mode with
  | Some m =>
    if fdOK && setattrOK sc
    then (true, mkDevice m (devCols d) (devRows d) (devNotify d))
    else (false, d)
  | None => (false, d)
  end.

Definition setNotify (b : bool) (d : Device) : Device :=
  mkDevice (devMode d) (devCols d) (devRows d) b.

(** [t.Start()]: the error returned, if any, and the session and the device
    afterwards.  The two goroutines it starts are [readRunes], which feeds
    [t.runes], and [readEvents], the decode loop above. *)
Definition Start (b : flagbits) (sc : syscalls) (t : Terminal) (d : Device)
  : option error * Terminal * Device :=
  if negb (in_ t) && negb (openOK sc) then (Some OpenError, t, d)
  else
    let t1 := mkTerminal true (Some fromTty) (out_ t) (runes_ t) (events_ t)
                (running t) (originalMode t) (sigwinch t) (Width t) (Height t)
                (written t) in
    if negb (out_ t) && negb (openOK sc) then (Some OpenError, t1, d)
    else
      if negb (getattrOK sc) then
        (Some FetchModeError,
         mkTerminal true (Some fromTty) true (runes_ t) (events_ t) true
           None (sigwinch t) (Width t) (Height t) (written t), d)
      else
        let original := devMode d in
        let (ok, d1) := setMode sc true (Some (rawMode b original)) d in
        if negb ok then
          (Some SetModeError,
           mkTerminal true (Some fromTty) true (runes_ t) (events_ t) true
             (Some original) (sigwinch t) (Width t) (Height t) (written t), d1)
        else if negb (winsizeOK sc) then
          (Some WindowSizeError,
           mkTerminal true (Some fromTty) true (runes_ t) (events_ t) true
             (Some original) (sigwinch t) (-1) (-1) (written t), d1)
        else
          (None,
           mkTerminal true (Some fromTty) true chanOpen chanOpen true
             (Some original) chanOpen (devCols d1) (devRows d1) (written t),
           setNotify true d1).

Definition close (c : chan) : result chan :=
  match c with
  | chanNil => Panic CloseOfNilChannel
  | chanClosed => Panic CloseOfClosedChannel
  | chanOpen => Ok chanClosed
  end.

(** [t.Stop()].  A panic leaves the function at once; what was assigned
    before it stays assigned. *)
Definition Stop (sc : syscalls) (t : Terminal) (d : Device)
  : result unit * Terminal * Device :=
  let t0 := mkTerminal (in_ t) (inBuffer t) (out_ t) (runes_ t) (events_ t)
              false (originalMode t) (sigwinch t) (Width t) (Height t)
              (written t) in
  match close (runes_ t0) with
  | Panic p => (Panic p, t0, d)
  | Ok r =>
    let t1 := mkTerminal (in_ t) (inBuffer t) (out_ t) r (events_ t)
                false (originalMode t) (sigwinch t) (Width t) (Height t)
                (written t) in
    match close (events_ t1) with
    | Panic p => (Panic p, t1, d)
    | Ok e =>
      let t2 := mkTerminal (in_ t) (inBuffer t) (out_ t) r e
                  false (originalMode t) (sigwinch t) (Width t) (Height t)
                  (written t) in
      let d1 := setNotify false d in
      let t3 := Puts termShowCursor [] t2 in
      let (_, d2) := setMode sc (out_ t3) (originalMode t3) d1 in
      match inBuffer t3 with
      | None => (Panic NilDereference, t3, d2)
      | Some _ =>
        (Ok tt,
         mkTerminal (in_ t3) (Some fromNopReader) (out_ t3) (runes_ t3)
           (events_ t3) (running t3) (originalMode t3) (sigwinch t3)
           (Width t3) (Height t3) (written t3), d2)
      end
    end
  end.

Definition setSize (w h : Z) (t : Terminal) : Terminal :=
  mkTerminal (in_ t) (inBuffer t) (out_ t) (runes_ t) (events_ t) (running t)
             (originalMode t) (sigwinch t) w h (written t).

Definition resize (cols rows : Z) (d : Device) : Device :=
  mkDevice (devMode d) cols rows (devNotify d).

(** What the outer [select] of [readEvents] receives: a value from
    [t.sigwinch] after the window became [cols] x [rows], or a rune from
    [t.runes] together with the runes that arrive before the 50 ms timer
    fires; [ok = false] is a receive from a closed channel. *)
Inductive received :=
| fromSigwinch (ok : bool) (cols rows : Z)
| fromRunes (ok : bool) (r : rune) (gathered : list rune).

Inductive exit := Returned | Panicked | Waiting.

(** [t.readEvents()] run on a sequence of receives: the events sent on
    [t.events] in order, and how the loop was left ([Waiting]: it blocks in
    the [select] for more). *)
Fixpoint readEvents (sc : syscalls) (t : Terminal) (d : Device)
         (inputs : list received) : list Event * exit * Terminal * Device :=
  match inputs with
  | [] => ([], Waiting, t, d)
  | fromSigwinch false _ _ :: _ => ([], Returned, t, d)
  | fromSigwinch true cols rows :: rest =>
    let d1 := resize cols rows d in
    if winsizeOK sc then
      let '(evs, x, t', d') := readEvents sc (setSize cols rows t) d1 rest in
      (resizeEvent :: evs, x, t', d')
    else
      let '(_, t', d') := Stop sc (setSize (-1) (-1) t) d1 in
      ([], Panicked, t', d')
  | fromRunes false _ _ :: _ => ([], Returned, t, d)
  | fromRunes true r gathered :: rest =>
    let '(evs, x, t', d') := readEvents sc t d rest in
    (decodeSeq (r :: gathered) ++ evs, x, t', d')
  end.

(* ---------------------------------------------------------------- *)
(** ** The other output primitives and the colours *)

Definition termClearLine : string := (ESC ++ "[0K")%string.
Definition termSetColor : string := (ESC ++ "[%d;%dm")%string.
Definition termReset : string := (ESC ++ "[0m")%string.
Definition termHideCursor : string := (ESC ++ "[?25l")%string.
Definition termSetCursor : string := (ESC ++ "[%d;%dH")%string.

Definition HideCursor (t : Terminal) : Terminal := Puts termHideCursor [] t.
Definition ClearLine (t : Terminal) : Terminal := Puts termClearLine [] t.

(** Go's [int] is 64 bits wide here; sums wrap around. *)
Definition wrap64 (z : Z) : Z := (z + 2 ^ 63) mod 2 ^ 64 - 2 ^ 63.

Definition SetCursor (x y : Z) (t : Terminal) : Terminal :=
  Puts termSetCursor [wrap64 (y + 1); wrap64 (x + 1)] t.

Definition Color := Z.

Definition ColorBlack : Color := 0.
Definition ColorRed : Color := 1.
Definition ColorGreen : Color := 2.
Definition ColorYellow : Color := 3.
Definition ColorBlue : Color := 4.
Definition ColorPurple : Color := 5.
Definition ColorCyan : Color := 6.
Definition ColorLightGray : Color := 7.
Definition ColorDefault : Color := 8.

(** The second block: [ColorGray Color = iota + 9]. *)
Definition ColorGray : Color := 9.
Definition ColorBrightRed : Color := 10.
Definition ColorBrightGreen : Color := 11.
Definition ColorBrightYellow : Color := 12.
Definition ColorBrightBlue : Color := 13.
Definition ColorBrightPurple : Color := 14.
Definition ColorBrightCyan : Color := 15.
Definition ColorWhite : Color := 16.

Definition setColor (c : Color) (isBg : bool) (t : Terminal) : Terminal :=
  let bright := (8 <? c) && (c <=? 16) in
  let brightValue := if bright then 1 else 0 in
  let c1 := if bright then wrap64 (c - 8) else c in
  let c2 := if isBg then wrap64 (c1 + 40) else wrap64 (c1 + 30) in
  Puts termSetColor [brightValue; c2] t.

Definition SetFg (c : Color) (t : Terminal) : Terminal := setColor c false t.
Definition SetBg (c : Color) (t : Terminal) : Terminal := setColor c true t.
Definition Reset (t : Terminal) : Terminal := Puts termReset [] t.

(** [(w *NopReader) Read(b)]: the count and the error returned for a buffer
    of [n] bytes; the buffer is left as it is. *)
Definition NopReader_Read (n : Z) : Z * option error := (n, None).

(* ---------------------------------------------------------------- *)
(** ** Statements about the decode loop *)

(** The loop on [seq] is about to test [i < len(seq)] with this value of
    [i], having sent the events [evs]. *)
Inductive reached (seq : list rune) : nat -> list Event -> Prop :=
| reached_start : reached seq 0 []
| reached_next (i : nat) (evs : list Event) (r : rune) :
    reached seq i evs ->
    nth_error seq i = Some r ->
    reached seq (snd (decodeAt seq i r)) (evs ++ [fst (decodeAt seq i r)]).

(** The third rune of the four arrow sequences, with their keys. *)
Definition arrowTable : list (rune * Key) :=
  [(65, KeyUp); (66, KeyDown); (67, KeyRight); (68, KeyLeft)].

(** The patterns of the two [switch] statements, as runes, with their keys. *)
Definition escapeTable : list (list rune * Key) :=
  [ ([91; 65], KeyUp); ([91; 66], KeyDown); ([91; 67], KeyRight);
    ([91; 68], KeyLeft); ([91; 72], KeyHome); ([91; 70], KeyEnd);
    ([91; 90], KeyShiftTab); ([79; 72], KeyHome); ([79; 70], KeyEnd);
    ([91; 51; 126], KeyDel); ([91; 53; 126], KeyPageUp);
    ([91; 54; 126], KeyPageDown) ].




End Term.

(* ================================================================== *)
(** * Package prompt: the line editor *)
(* ================================================================== *)

Module Prompt.

Import GoString.
Import Term.

(** [type Prompt struct]: the history and the completion callback; the
    terminal is part of the [World] below.  A [[]string] result that the
    code compares with [nil] is an option. *)
Record Prompt := mkPrompt {
  history : list string;
  completionFn : option (string -> option (list string)) }.

Definition NewPrompt : Prompt := mkPrompt [] None.

Definition SetCompletionFn (fn : string -> option (list string)) (p : Prompt)
  : Prompt := mkPrompt (history p) (Some fn).

Definition newline : string := String "010"%char EmptyString.

Definition History (p : Prompt) : string := Join (history p) newline.

(** The body of [for r := range history]: with one iteration variable the
    range clause yields the byte index of each code point, so [r] is an
    index, compared with ['\n'] (10) and converted by [string(r)]. *)
Definition LoadHistory_body (st : list string * string) (r : Z)
  : list string * string :=
  let (hist, buf) := st in
  let (hist', buf') :=
    if r =? 10 then (hist ++ [buf], EmptyString) else (hist, buf) in
  (hist', (buf' ++ of_rune r)%string).

Definition LoadHistory (text : string) (p : Prompt) : Prompt :=
  let (hist, _) :=
    fold_left LoadHistory_body (map fst (range text)) (history p, EmptyString) in
  mkPrompt hist (completionFn p).

Definition AppendHistory (line : string) (p : Prompt) : Prompt :=
  mkPrompt (history p ++ [line]) (completionFn p).

(** [type promptState struct]; the pointer [p] is passed to the methods. *)
Record promptState := mkState {
  prompt : string;
  line : string;
  historyIndex : Z;
  completionOptions : option (list string) }.

Definition setLine (l : string) (s : promptState) : promptState :=
  mkState (prompt s) l (historyIndex s) (completionOptions s).
Definition setHistoryIndex (i : Z) (s : promptState) : promptState :=
  mkState (prompt s) (line s) i (completionOptions s).
Definition setCompletionOptions (o : option (list string)) (s : promptState)
  : promptState := mkState (prompt s) (line s) (historyIndex s) o.

(** What the editor acts on: the terminal, and the arguments the completion
    callback has been called with (a record of the calls, oldest first). *)
Record World := mkWorld {
  terminal : Terminal;
  asked : list string }.

(** State and panics. *)
Definition M (A : Type) : Type := World -> result (A * World).

Definition ret {A} (a : A) : M A := fun w => Ok (a, w).
Definition bind {A B} (c : M A) (k : A -> M B) : M B :=
  fun w => match c w with
           | Ok (a, w') => k a w'
           | Panic p => Panic p
           end.
Definition raise {A} (p : panic) : M A := fun _ => Panic p.

Notation "x <- c ;; k" := (bind c (fun x => k))
  (at level 61, c at next level, right associativity).
Notation "c ;; k" := (bind c (fun _ => k))
  (at level 61, right associativity).

Definition onTerminal (f : Terminal -> Terminal) : M unit :=
  fun w => Ok (tt, mkWorld (f (terminal w)) (asked w)).
Definition puts (f : string) : M unit := onTerminal (Puts f []).
Definition setCursorColumn (x : Z) : M unit := onTerminal (SetCursorColumn x).
Definition clear : M unit := onTerminal Clear.
Definition width : M Z := fun w => Ok (Width (terminal w), w).

(** [s.p.completionFn(line)]. *)
Definition ask (fn : string -> option (list string)) (l : string)
  : M (option (list string)) :=
  fun w => Ok (fn l, mkWorld (terminal w) (asked w ++ [l])).

(** [s.p.history[i]]. *)
Definition historyAt (p : Prompt) (i : Z) : M string :=
  if (i <? 0) || (Z.of_nat (List.length (history p)) <=? i)
  then raise HistoryIndexOutOfRange
  else ret (nth (Z.to_nat i) (history p) EmptyString).

Definition Render (p : Prompt) (s : promptState) : M unit :=
  setCursorColumn 0 ;;
  w <- width ;;
  (if w <? 0 then raise NegativeRepeatCount
   else puts (Repeat " " (Z.to_nat w))) ;;
  setCursorColumn 0 ;;
  if historyIndex s =? -1 then puts (prompt s ++ line s)
  else (h <- historyAt p (historyIndex s) ;; puts (prompt s ++ h)).

Fixpoint putOptions (options : list string) : M unit :=
  match options with
  | [] => ret tt
  | option :: rest =>
    puts (option ++ newline) ;; setCursorColumn 0 ;; putOptions rest
  end.

Definition RenderCompletionOptions (s : promptState) : M unit :=
  puts newline ;;
  setCursorColumn 0 ;;
  putOptions (match completionOptions s with Some l => l | None => [] end).

Definition MaybeUseHistory (p : Prompt) (s : promptState) : M promptState :=
  if negb (historyIndex s =? -1) then
    h <- historyAt p (historyIndex s) ;;
    ret (setHistoryIndex (-1) (setLine h s))
  else ret s.

Definition Edit (p : Prompt) (cb : string -> string) (s : promptState)
  : M promptState :=
  s1 <- MaybeUseHistory p s ;;
  let s2 := setCompletionOptions None s1 in
  let s3 := setLine (cb (line s2)) s2 in
  Render p s3 ;;
  ret s3.

Definition lastIndex (p : Prompt) : Z := Z.of_nat (List.length (history p)) - 1.

Definition HistoryPrevious (p : Prompt) (s : promptState) : M promptState :=
  let s1 :=
    if historyIndex s =? -1 then
      if 0 <? Z.of_nat (List.length (history p))
      then setHistoryIndex (lastIndex p) s else s
    else if 0 <? historyIndex s then setHistoryIndex (historyIndex s - 1) s
    else s in
  Render p s1 ;;
  ret s1.

Definition HistoryNext (p : Prompt) (s : promptState) : M promptState :=
  let s1 :=
    if (historyIndex s =? lastIndex p) || (historyIndex s =? -1)
    then setHistoryIndex (-1) s
    else setHistoryIndex (historyIndex s + 1) s in
  Render p s1 ;;
  ret s1.

(** The inner loop [for i, c := range option]: [i] is a byte index of
    [option], used as a rune index of [bestOption].  [bestOption] is only
    assigned right before [break], so it is constant while the loop runs. *)
Fixpoint scanOption (bestOption option : string) (l : list (Z * rune))
  : result string :=
  match l with
  | [] => Ok bestOption
  | (i, c) :: l' =>
    if len bestOption <=? i then Ok bestOption
    else
      match nth_error (runes bestOption) (Z.to_nat i) with
      | None => Panic RuneIndexOutOfRange
      | Some b =>
        if negb (c =? b) then Ok (prefix option i)
        else scanOption bestOption option l'
      end
  end.

(** The outer loop [for _, option := range s.completionOptions[1:]]. *)
Fixpoint commonRoot (bestOption : string) (options : list string)
  : result string :=
  match options with
  | [] => Ok bestOption
  | option :: rest =>
    match scanOption bestOption option (range option) with
    | Ok best => commonRoot best rest
    | Panic e => Panic e
    end
  end.

Definition lift {A} (r : result A) : M A :=
  fun w => match r with Ok a => Ok (a, w) | Panic e => Panic e end.

Definition CompleteSuggest (p : Prompt) (s : promptState) : M promptState :=
  match completionFn p with
  | None => ret s
  | Some fn =>
    match completionOptions s with
    | Some _ =>
      (* We just completed, list all completion options *)
      RenderCompletionOptions s ;; Render p s ;; ret s
    | None =>
      options <- ask fn (line s) ;;
      match options with
      | None | Some [] => ret (setCompletionOptions None s)
      | Some (first :: others) =>
        let s1 := setCompletionOptions (Some (first :: others)) s in
        s2 <- MaybeUseHistory p s1 ;;
        bestOption <- lift (commonRoot first others) ;;
        (if (1 <? Z.of_nat (List.length (first :: others)))
         then RenderCompletionOptions s2 else ret tt) ;;
        let s3 :=
          if negb (String.eqb (line s2) bestOption)
          then setCompletionOptions None s2 else s2 in
        let s4 := setLine bestOption s3 in
        Render p s4 ;;
        ret s4
      end
    end
  end.

Inductive promptError := ErrorPromptAborted | ErrorPromptEnded.

(** One iteration of the [for] loop of [Prompt]: go on with a state, or
    return a line and an error. *)
Inductive iteration :=
| Continue (s : promptState)
| Return (l : string) (err : option promptError).

Definition chop (l : string) : string := prefix l (len l - 1).

Definition handle (p : Prompt) (s : promptState) (ev : Event) : M iteration :=
  match evType ev with
  | EventResize => ret (Continue s)
  | EventKey =>
    let k := evKey ev in
    if k =? KeyCtrlC then ret (Return EmptyString (Some ErrorPromptAborted))
    else if k =? KeyCtrlD then ret (Return EmptyString (Some ErrorPromptEnded))
    else if k =? KeyCr then
      s1 <- MaybeUseHistory p s ;;
      puts newline ;;
      setCursorColumn 0 ;;
      ret (Return (line s1) None)
    else if k =? KeyBackspace then
      s1 <- MaybeUseHistory p s ;;
      if 0 <? len (line s1)
      then (s2 <- Edit p chop s1 ;; ret (Continue s2))
      else ret (Continue s1)
    else if k =? KeyTab then
      s1 <- CompleteSuggest p s ;; ret (Continue s1)
    else if k =? KeyUp then
      s1 <- HistoryPrevious p s ;; ret (Continue s1)
    else if k =? KeyDown then
      s1 <- HistoryNext p s ;; ret (Continue s1)
    else if k =? KeyCtrlU then
      s1 <- Edit p (fun _ => EmptyString) s ;; ret (Continue s1)
    else if k =? KeyCtrlL then
      clear ;; Render p s ;; ret (Continue s)
    else if k =? KeyRune then
      s1 <- Edit p (fun l => (l ++ of_rune (evRune ev))%string) s ;;
      ret (Continue s1)
    else ret (Continue s)
  end.

Definition initialState (promptText : string) : promptState :=
  mkState promptText EmptyString (-1) None.

(** The [for] loop on the events received from [p.terminal.Events()], in
    order: [inl s] when the loop waits for more in state [s], [inr] what
    [Prompt] returns. *)
Fixpoint editLoop (p : Prompt) (s : promptState) (evs : list Event)
  : M (promptState + string * option promptError) :=
  match evs with
  | [] => ret (inl s)
  | ev :: rest =>
    it <- handle p s ev ;;
    match it with
    | Continue s' => editLoop p s' rest
    | Return l err => ret (inr (l, err))
    end
  end.

(** [p.Prompt(prompt)] between [Start] and the deferred [Stop]. *)
Definition PromptLoop (p : Prompt) (promptText : string) (evs : list Event)
  : M (promptState + string * option promptError) :=
  puts promptText ;;
  editLoop p (initialState promptText) evs.

(* ---------------------------------------------------------------- *)
(** ** The invariant and the effective line *)

(** [historyIndex] is -1 or an index of the history. *)
Definition valid (p : Prompt) (s : promptState) : Prop :=
  historyIndex s = -1
  \/ 0 <= historyIndex s < Z.of_nat (List.length (history p)).

(** The line [Render] shows: the live buffer at -1, the history entry at
    [historyIndex] otherwise. *)
Definition effectiveLine (p : Prompt) (s : promptState) : string :=
  if historyIndex s =? -1 then line s
  else nth (Z.to_nat (historyIndex s)) (history p) EmptyString.

(** [a] is a prefix of [b], byte by byte. *)
Definition isPrefix (a b : string) : bool := String.prefix a b.

(** The state after [MaybeUseHistory]: browsing is collapsed into the line. *)
Definition collapsed (p : Prompt) (s : promptState) : promptState :=
  if historyIndex s =? -1 then s
  else setHistoryIndex (-1) (setLine (effectiveLine p s) s).

(** The index [HistoryPrevious] and [HistoryNext] move to. *)
Definition indexAfterUp (p : Prompt) (i : Z) : Z :=
  if i =? -1 then
    if 0 <? Z.of_nat (List.length (history p)) then lastIndex p else i
  else if 0 <? i then i - 1 else i.

Definition indexAfterDown (p : Prompt) (i : Z) : Z :=
  if (i =? lastIndex p) || (i =? -1) then -1 else i + 1.

(** The terminal after [RenderCompletionOptions] for the options [l]. *)
Fixpoint optionsPut (l : list string) (t : Terminal) : Terminal :=
  match l with
  | [] => t
  | option :: rest =>
    optionsPut rest (SetCursorColumn 0 (Puts (option ++ newline) [] t))
  end.

Definition listed (l : list string) (t : Terminal) : Terminal :=
  optionsPut l (SetCursorColumn 0 (Puts newline [] t)).

(** The terminal after a successful [Render]: the four writes. *)
Definition rendered (p : Prompt) (s : promptState) (t : Terminal) : Terminal :=
  Puts (prompt s ++ effectiveLine p s) []
    (SetCursorColumn 0
       (Puts (Repeat " " (Z.to_nat (Width t))) [] (SetCursorColumn 0 t))).

(* ---------------------------------------------------------------- *)
(** ** Values for the examples *)

(** A started terminal of 80 columns and 24 rows that has written nothing. *)
Definition console : World := mkWorld (setSize 80 24 NewTerminal) [].

(** Completion callbacks: constant ones, and one that knows the line git. *)
Definition always (candidates : list string) (l : string) : option (list string) :=
  Some candidates.

Definition completeGit (l : string) : option (list string) :=
  if String.eqb l "git" then Some ["github"%string] else None.

Definition keyUp : Event := keyEvent KeyUp.
Definition keyDown : Event := keyEvent KeyDown.

(** The history index after the events [evs], when the loop still runs. *)
Definition indexAfter (p : Prompt) (s : promptState) (evs : list Event) (w : World)
  : option Z :=
  match editLoop p s evs w with
  | Ok (inl s', _) => Some (historyIndex s')
  | _ => None
  end.

(** A device in its usual line mode, 80 columns by 24 rows, and system calls
    that all succeed. *)
Definition cookedTty : Device :=
  mkDevice (mkTermios 0x4500 0x5 0xBF 0x8A3B [3; 28; 127; 21; 4] 15 15) 80 24 false.

Definition allOK : syscalls := mkSyscalls true true true true.

(* ---------------------------------------------------------------- *)
(** ** Statements about the editor *)

(** The writes of [RenderCompletionOptions] for the options [l]. *)
Definition listingWrites (l : list string) : list (string * list Z) :=
  (newline, []) :: (termSetCursorColumn, [1])
  :: flat_map (fun option => [((option ++ newline)%string, []);
                              (termSetCursorColumn, [1])]) l.

(** The invariant, decided. *)
Definition validb (p : Prompt) (s : promptState) : bool :=
  (historyIndex s =? -1)
  || ((0 <=? historyIndex s)
      && (historyIndex s <? Z.of_nat (List.length (history p)))).

(** The keys the loop of [Prompt] has a branch for. *)
Definition handledKeys : list Key :=
  [KeyCtrlC; KeyCtrlD; KeyCr; KeyBackspace; KeyTab; KeyUp; KeyDown; KeyCtrlU;
   KeyCtrlL; KeyRune].

(** The four writes of [Render] for a width, a prompt and a line. *)
Definition renderWrites (w : Z) (promptText l : string) : list (string * list Z) :=
  [ (termSetCursorColumn, [1]);
    (Repeat " " (Z.to_nat w), []);
    (termSetCursorColumn, [1]);
    ((promptText ++ l)%string, []) ].

(** Every byte of the string is below 128. *)
Definition allAscii (s : string) : bool :=
  forallb (fun b => b <? 0x80) (bytes s).

(** Two strings compared character by character: [Some r] when they differ
    first after the common part [r], [None] when one of them ends first. *)
Fixpoint firstMismatch (a b : string) : option string :=
  match a, b with
  | String x a', String y b' =>
    if Ascii.eqb x y then option_map (String x) (firstMismatch a' b')
    else Some EmptyString
  | _, _ => None
  end.

(** The bytes of a list with their indices from [i] on. *)
Fixpoint indexed (i : Z) (l : list Z) : list (Z * Z) :=
  match l with
  | [] => []
  | b :: rest => (i, b) :: indexed (i + 1) rest
  end.

(** What comparing [bestOption] with one more candidate leaves: the common
    part when the two differ somewhere, [bestOption] itself when one of them
    ends before a difference. *)
Definition narrowed (bestOption option : string) : string :=
  match firstMismatch option bestOption with
  | Some r => r
  | None => bestOption
  end.

(** Unfolds the operations of [M]. *)
Ltac run_monad :=
  unfold bind, ret, raise, lift, puts, clear, setCursorColumn, onTerminal,
    width, ask in *; cbn [terminal asked fst snd] in *.

End Prompt.

(* ================================================================== *)
(** * Properties of the decode loop *)
(* ================================================================== *)

Import GoString.
Import Term.
Import Prompt.

Lemma nth_error_skipn_cons {A} (seq : list A) (i : nat) (r : A) :
  nth_error seq i = Some r -> skipn i seq = r :: skipn (i + 1) seq.
Proof.
  revert i. induction seq as [|a seq IH]; intros [|i] H; simpl in *; try discriminate.
  - now inversion H.
  - now apply IH.
Qed.

Lemma nth_error_skipn_nil {A} (seq : list A) (i : nat) :
  nth_error seq i = None -> skipn i seq = [].
Proof.
  revert i. induction seq as [|a seq IH]; intros [|i] H; simpl in *;
    try discriminate; auto.
Qed.

(** An iteration at index [i] only looks at the runes from [i] on. *)
Lemma decodeAt_decodeHead (seq : list rune) (i : nat) (r : rune) :
  decodeAt seq i r =
  (fst (decodeHead r (skipn (i + 1) seq)),
   (i + 1 + snd (decodeHead r (skipn (i + 1) seq)))%nat).
Proof.
  unfold decodeAt, decodeHead, slice. cbv zeta.
  replace (i + 3 - (i + 1))%nat with 2%nat by lia.
  replace (i + 4 - (i + 1))%nat with 3%nat by lia.
  destruct (r =? KeyEsc).
  - destruct (negb (_ =? KeyUnknown)); cbn [fst snd].
    + apply (f_equal2 pair); [reflexivity | lia].
    + destruct (negb (_ =? KeyUnknown)); cbn [fst snd];
        (apply (f_equal2 pair); [reflexivity | lia]).
  - destruct ((r <? 27) || (r =? 127)); cbn [fst snd];
      (apply (f_equal2 pair); [reflexivity | lia]).
Qed.

Lemma decodeLoop_decodeSuffix (fuel : nat) (seq : list rune) (i : nat) :
  decodeLoop fuel seq i = decodeSuffix fuel (skipn i seq).
Proof.
  revert i. induction fuel as [|fuel IH]; intros i; simpl; [reflexivity|].
  destruct (nth_error seq i) as [r|] eqn:E.
  - rewrite (nth_error_skipn_cons _ _ _ E), decodeAt_decodeHead.
    destruct (decodeHead r (skipn (i + 1) seq)) as [ev k]; simpl.
    rewrite IH, skipn_skipn. now rewrite (Nat.add_comm k).
  - now rewrite (nth_error_skipn_nil _ _ E).
Qed.

Lemma decodeSuffix_fuel (fuel1 fuel2 : nat) (l : list rune) :
  (List.length l <= fuel1)%nat -> (List.length l <= fuel2)%nat ->
  decodeSuffix fuel1 l = decodeSuffix fuel2 l.
Proof.
  revert fuel2 l. induction fuel1 as [|fuel1 IH]; intros fuel2 l H1 H2.
  - destruct l; simpl in *; [now destruct fuel2 | lia].
  - destruct l as [|r rest]; [now destruct fuel2|].
    destruct fuel2 as [|fuel2]; simpl in *; [lia|].
    destruct (decodeHead r rest) as [ev k]. f_equal.
    assert (List.length (skipn k rest) <= List.length rest)%nat
      by (rewrite length_skipn; lia).
    apply IH; lia.
Qed.

(** The loop unfolded once. *)
Lemma decodeSeq_cons (r : rune) (rest : list rune) :
  decodeSeq (r :: rest) =
  fst (decodeHead r rest) :: decodeSeq (skipn (snd (decodeHead r rest)) rest).
Proof.
  unfold decodeSeq. rewrite !decodeLoop_decodeSuffix. simpl.
  destruct (decodeHead r rest) as [ev k]; simpl. f_equal.
  apply decodeSuffix_fuel; rewrite ?length_skipn; lia.
Qed.

Lemma decodeHead_ordinary (r : rune) (rest : list rune) :
  (r = KeyEsc -> recognized rest = false) ->
  decodeHead r rest = (ordinary r, 0%nat).
Proof.
  intros H. unfold decodeHead, ordinary. cbv zeta.
  destruct (r =? KeyEsc) eqn:E;
    [|now destruct ((r <? 27) || (r =? 127))].
  apply Z.eqb_eq in E. specialize (H E). subst r. unfold recognized in H.
  apply orb_false_iff in H. destruct H as [H2 H3].
  destruct (2 <=? List.length rest)%nat; cbn [andb] in H2;
    [rewrite H2 | ];
    (destruct (3 <=? List.length rest)%nat; cbn [andb] in H3;
     [rewrite H3 | ]; reflexivity).
Qed.

(** A sequence without a recognized pattern is decoded rune by rune. *)
Lemma decodeSeq_plain (seq : list rune) :
  plain seq -> decodeSeq seq = map ordinary seq.
Proof.
  induction seq as [|r rest IH]; intros H; [reflexivity|].
  destruct H as [Hr Hrest].
  rewrite decodeSeq_cons, (decodeHead_ordinary _ _ Hr). simpl.
  now rewrite IH.
Qed.

(** After a recognized two-rune pattern the index jumps by four, after a
    three-rune pattern by five: in both cases the rune that follows the
    pattern is passed over and no event is sent for it. *)
Lemma decodeSeq_arrow_then_rune (x : rune) (rest : list rune) :
  decodeSeq (KeyEsc :: 91 :: 65 :: x :: rest) = keyEvent KeyUp :: decodeSeq rest.
Proof. rewrite decodeSeq_cons. reflexivity. Qed.

Lemma decodeSeq_delete_then_rune (x : rune) (rest : list rune) :
  decodeSeq (KeyEsc :: 91 :: 51 :: 126 :: x :: rest) = keyEvent KeyDel :: decodeSeq rest.
Proof. rewrite decodeSeq_cons. reflexivity. Qed.

(** C1 (defect of the code).  The claim: the source bytes of the events sent,
    concatenated, are the input.  The decode loop sends the single event Up
    for the gathered sequence ESC [ A x as it does for ESC [ A, and the single
    event Del for ESC [ 3 ~ x: the rune x is lost.  Hence no assignment of
    source runes to events gives back every input. *)
Theorem C1_decode_loses_rune_after_sequence :
  decodeSeq [27; 91; 65; 120] = [keyEvent KeyUp]
  /\ decodeSeq [27; 91; 65] = [keyEvent KeyUp]
  /\ decodeSeq [27; 91; 51; 126; 120] = [keyEvent KeyDel]
  /\ (forall source : Event -> list rune,
         ~ (forall seq, flat_map source (decodeSeq seq) = seq)).
Proof.
  repeat split; try reflexivity.
  intros source H.
  pose proof (H [27; 91; 65; 120]) as H1.
  pose proof (H [27; 91; 65]) as H2.
  change (decodeSeq [27; 91; 65; 120]) with [keyEvent KeyUp] in H1.
  change (decodeSeq [27; 91; 65]) with [keyEvent KeyUp] in H2.
  rewrite H2 in H1. discriminate H1.
Qed.

Lemma reached_decodeSeq (seq : list rune) (i : nat) (evs : list Event) :
  reached seq i evs -> decodeSeq seq = evs ++ decodeSeq (skipn i seq).
Proof.
  induction 1 as [|i evs r _ IH Hr]; [reflexivity|].
  rewrite IH, (nth_error_skipn_cons _ _ _ Hr), decodeSeq_cons.
  rewrite decodeAt_decodeHead. cbn [fst snd].
  rewrite skipn_skipn, (Nat.add_comm _ (i + 1)), <- app_assoc. reflexivity.
Qed.

(** The four arrow sequences and the lone escape rune, each received alone
    within the window. *)
Lemma readEvents_arrow_sequences (sc : syscalls) (t : Terminal) (d : Device) :
  readEvents sc t d [fromRunes true KeyEsc [91; 65]]
    = ([keyEvent KeyUp], Waiting, t, d)
  /\ readEvents sc t d [fromRunes true KeyEsc [91; 66]]
    = ([keyEvent KeyDown], Waiting, t, d)
  /\ readEvents sc t d [fromRunes true KeyEsc [91; 67]]
    = ([keyEvent KeyRight], Waiting, t, d)
  /\ readEvents sc t d [fromRunes true KeyEsc [91; 68]]
    = ([keyEvent KeyLeft], Waiting, t, d)
  /\ readEvents sc t d [fromRunes true KeyEsc []]
    = ([mkEvent EventKey KeyRune 27], Waiting, t, d).
Proof. repeat split. Qed.

(** C2 (as the code has it).  Whenever the decode loop comes to an escape
    rune, at any index of the gathered sequence and whatever it has sent
    before: if the two runes after it are [A, [B, [C or [D, the loop sends
    for these three runes exactly the one key event Up, Down, Right or Left,
    after the events sent before, and goes on behind them; it is the last
    event when the sequence ends there.  If nothing follows the escape rune,
    the loop sends exactly one more event, a key event of key KeyRune and
    rune 27. *)
Theorem C2_arrows_and_lone_escape (seq : list rune) (i : nat) (evs : list Event) :
  reached seq i evs ->
  (forall (c : rune) (k : Key) (rest : list rune),
      In (c, k) arrowTable ->
      skipn i seq = KeyEsc :: 91 :: c :: rest ->
      (exists j, (i + 3 <= j)%nat
                 /\ decodeSeq seq = evs ++ keyEvent k :: decodeSeq (skipn j seq))
      /\ (rest = [] -> decodeSeq seq = evs ++ [keyEvent k]))
  /\ (skipn i seq = [KeyEsc] ->
      decodeSeq seq = evs ++ [mkEvent EventKey KeyRune 27]).
Proof.
  intros Hr. pose proof (reached_decodeSeq seq i evs Hr) as E. split.
  - intros c k rest Hin Hs.
    assert (Hd : decodeSeq (skipn i seq)
                 = keyEvent k :: decodeSeq (skipn 3 (91 :: c :: rest))).
    { rewrite Hs, decodeSeq_cons. unfold arrowTable in Hin. cbn [In] in Hin.
      repeat (destruct Hin as [Hin|Hin]; [inversion Hin; subst; reflexivity|]).
      contradiction. }
    split.
    + exists (i + 4)%nat. split; [lia|]. rewrite E, Hd. do 2 f_equal.
      assert (Hk : skipn (i + 4) seq = skipn 4 (skipn i seq))
        by (rewrite skipn_skipn; f_equal; lia).
      rewrite Hk, Hs. reflexivity.
    + intros ->. rewrite E, Hd. reflexivity.
  - intros Hs. rewrite E, Hs. reflexivity.
Qed.

Lemma C2_arrows_and_lone_escape_witness :
  reached [120; 27; 91; 65] 1 [runeEvent 120]
  /\ In (65, KeyUp) arrowTable
  /\ decodeSeq [120; 27; 91; 65] = [runeEvent 120; keyEvent KeyUp].
Proof.
  assert (Hr : reached [120; 27; 91; 65] 1 [runeEvent 120])
    by exact (reached_next [120; 27; 91; 65] 0 [] 120
                (reached_start _) eq_refl).
  assert (Hin : In (65, KeyUp) arrowTable) by (unfold arrowTable; cbn; tauto).
  split; [exact Hr|]. split; [exact Hin|].
  destruct (C2_arrows_and_lone_escape [120; 27; 91; 65] 1 [runeEvent 120] Hr)
    as [H _].
  destruct (H 65 KeyUp [] Hin eq_refl) as [_ Hend].
  exact (Hend eq_refl).
Defined.

(** C2, the claim as stated fails: the event sent for a lone escape rune does
    not have the key KeyEsc. *)
Lemma C2_lone_escape_is_not_KeyEsc :
  decodeSeq [KeyEsc] = [mkEvent EventKey KeyRune 27]
  /\ evKey (mkEvent EventKey KeyRune 27) = 1000
  /\ KeyEsc = 27
  /\ decodeSeq [KeyEsc] <> [keyEvent KeyEsc].
Proof. repeat split. discriminate. Qed.

(** C8 (as the code has it).  When the runes gathered after an escape rune do
    not start with a recognized pattern, the loop sends the escape rune as a
    key event of its own (key KeyRune, rune 27) and goes on with the remaining
    runes as it decodes them on their own; when no escape rune among them is
    followed by a recognized pattern, each of them is sent as its ordinary
    rune or control-key event, in order, one event per rune. *)
Theorem C8_unrecognized_escape_degrades (rest : list rune) :
  recognized rest = false ->
  decodeSeq (KeyEsc :: rest) = runeEvent KeyEsc :: decodeSeq rest
  /\ evType (runeEvent KeyEsc) = EventKey
  /\ (plain rest ->
      decodeSeq (KeyEsc :: rest) = runeEvent KeyEsc :: map ordinary rest
      /\ List.length (decodeSeq (KeyEsc :: rest)) = List.length (KeyEsc :: rest)).
Proof.
  intros H.
  assert (E : decodeSeq (KeyEsc :: rest) = runeEvent KeyEsc :: decodeSeq rest).
  { rewrite decodeSeq_cons, decodeHead_ordinary by (intros _; exact H).
    reflexivity. }
  repeat split; try exact E.
  - rewrite E, decodeSeq_plain by assumption. reflexivity.
  - rewrite E, decodeSeq_plain by assumption. simpl. now rewrite length_map.
Qed.

Lemma C8_unrecognized_escape_degrades_witness :
  recognized [91; 120; 3] = false
  /\ decodeSeq [27; 91; 120; 3]
     = [runeEvent 27; runeEvent 91; runeEvent 120; keyEvent 3].
Proof.
  split; [reflexivity|].
  destruct (C8_unrecognized_escape_degrades [91; 120; 3] eq_refl) as (_ & _ & H).
  destruct H as [H _].
  - simpl. repeat split; intros; discriminate.
  - exact H.
Defined.

(** C8, the claim as stated fails: after an unrecognized escape rune the
    remaining runes ESC [ A are not sent one by one; they are the event Up. *)
Lemma C8_remaining_runes_are_decoded_again :
  recognized [27; 91; 65] = false
  /\ decodeSeq [27; 27; 91; 65] = [runeEvent 27; keyEvent KeyUp]
  /\ decodeSeq [27; 27; 91; 65] <> runeEvent 27 :: map ordinary [27; 91; 65].
Proof. repeat split. discriminate. Qed.

(* ================================================================== *)
(** * Properties of the line editor *)
(* ================================================================== *)

(** [LoadHistory] only ever appends to the history it finds. *)
Lemma LoadHistory_body_extends (indices : list Z) (hist : list string) (buf : string) :
  exists extra,
    fst (fold_left LoadHistory_body indices (hist, buf)) = hist ++ extra.
Proof.
  revert hist buf. induction indices as [|r indices IH]; intros hist buf; simpl.
  - exists []. now rewrite app_nil_r.
  - destruct (r =? 10).
    + destruct (IH (hist ++ [buf]) (EmptyString ++ of_rune r)%string) as [extra E].
      exists (buf :: extra). rewrite E, <- app_assoc. reflexivity.
    + destruct (IH hist (buf ++ of_rune r)%string) as [extra E].
      exists extra. exact E.
Qed.

Lemma LoadHistory_keeps_old_entries (text : string) (p : Prompt) :
  exists extra, history (LoadHistory text p) = history p ++ extra.
Proof.
  unfold LoadHistory.
  destruct (LoadHistory_body_extends (map fst (range text)) (history p) EmptyString)
    as [extra E].
  destruct (fold_left _ _ _) as [hist buf]. exists extra. exact E.
Qed.

(** C3 (defect of the code).  The claim, and the comment above [LoadHistory]:
    the history is replaced by the lines of the text.  The loop ranges over
    the byte indices of the text, not over its characters, never takes an
    entry away and keeps what is left in [buf] at the end: loading the two
    lines a, b into an empty history leaves it empty, loading into the
    history [old] leaves [old], and loading the exported history of one
    twelve-byte line adds a second entry made of the bytes 0 to 9. *)
Theorem C3_LoadHistory_does_not_load_lines :
  history (LoadHistory ("a" ++ newline ++ "b") NewPrompt) = []
  /\ history (LoadHistory ("a" ++ newline ++ "b") (mkPrompt ["old"%string] None))
     = ["old"%string]
  /\ (let p := mkPrompt ["hello world!"%string] None in
      History p = "hello world!"%string
      /\ map bytes (history (LoadHistory (History p) p))
         = [bytes "hello world!"; [0; 1; 2; 3; 4; 5; 6; 7; 8; 9]]
      /\ History (LoadHistory (History p) p) <> History p).
Proof. repeat split. discriminate. Qed.

Lemma historyAt_valid (p : Prompt) (i : Z) (w : World) :
  0 <= i < Z.of_nat (List.length (history p)) ->
  historyAt p i w = Ok (nth (Z.to_nat i) (history p) EmptyString, w).
Proof.
  intros H. unfold historyAt.
  destruct (i <? 0) eqn:E1; [apply Z.ltb_lt in E1; lia|].
  destruct (Z.of_nat (List.length (history p)) <=? i) eqn:E2;
    [apply Z.leb_le in E2; lia|].
  reflexivity.
Qed.

Lemma Render_valid (p : Prompt) (s : promptState) (w : World) :
  0 <= Width (terminal w) -> valid p s ->
  Render p s w = Ok (tt, mkWorld (rendered p s (terminal w)) (asked w)).
Proof.
  intros Hw Hv. unfold Render, rendered, effectiveLine. run_monad.
  change (Width (SetCursorColumn 0 (terminal w))) with (Width (terminal w)).
  destruct (Width (terminal w) <? 0) eqn:E; [apply Z.ltb_lt in E; lia|].
  cbn [terminal asked].
  destruct (historyIndex s =? -1) eqn:Ei; [reflexivity|].
  apply Z.eqb_neq in Ei. destruct Hv as [Hv|Hv]; [contradiction|].
  rewrite historyAt_valid by exact Hv. reflexivity.
Qed.

Lemma valid_setHistoryIndex (p : Prompt) (s : promptState) (i : Z) :
  i = -1 \/ 0 <= i < Z.of_nat (List.length (history p)) ->
  valid p (setHistoryIndex i s).
Proof. intros H. exact H. Qed.

Lemma valid_collapsed (p : Prompt) (s : promptState) : valid p (collapsed p s).
Proof.
  unfold collapsed. destruct (historyIndex s =? -1) eqn:E.
  - left. now apply Z.eqb_eq.
  - now left.
Qed.

Lemma line_collapsed (p : Prompt) (s : promptState) :
  line (collapsed p s) = effectiveLine p s.
Proof.
  unfold collapsed, effectiveLine. now destruct (historyIndex s =? -1).
Qed.

Lemma MaybeUseHistory_valid (p : Prompt) (s : promptState) (w : World) :
  valid p s -> MaybeUseHistory p s w = Ok (collapsed p s, w).
Proof.
  intros Hv. unfold MaybeUseHistory, collapsed, effectiveLine.
  destruct (historyIndex s =? -1) eqn:E; cbn [negb]; [reflexivity|].
  apply Z.eqb_neq in E. destruct Hv as [Hv|Hv]; [contradiction|].
  run_monad. now rewrite historyAt_valid.
Qed.

Lemma Edit_valid (p : Prompt) (cb : string -> string) (s : promptState) (w : World) :
  0 <= Width (terminal w) -> valid p s ->
  let s' := setLine (cb (effectiveLine p s))
              (setCompletionOptions None (collapsed p s)) in
  Edit p cb s w = Ok (s', mkWorld (rendered p s' (terminal w)) (asked w))
  /\ valid p s'.
Proof.
  intros Hw Hv s'.
  assert (Hv' : valid p s') by exact (valid_collapsed p s).
  split; [|exact Hv'].
  unfold Edit, bind. rewrite MaybeUseHistory_valid by exact Hv.
  change (setLine _ (setCompletionOptions None (collapsed p s))) with
    (setLine (cb (line (collapsed p s))) (setCompletionOptions None (collapsed p s))).
  rewrite line_collapsed. fold s'.
  now rewrite Render_valid.
Qed.

Lemma valid_indexAfterUp (p : Prompt) (s : promptState) :
  valid p s -> valid p (setHistoryIndex (indexAfterUp p (historyIndex s)) s).
Proof.
  intros Hv. apply valid_setHistoryIndex. unfold indexAfterUp, lastIndex.
  destruct (historyIndex s =? -1) eqn:E1.
  - destruct (0 <? Z.of_nat (List.length (history p))) eqn:E2.
    + apply Z.ltb_lt in E2. right. lia.
    + left. now apply Z.eqb_eq.
  - apply Z.eqb_neq in E1. destruct Hv as [Hv|Hv]; [contradiction|].
    destruct (0 <? historyIndex s) eqn:E2; right; lia.
Qed.

Lemma valid_indexAfterDown (p : Prompt) (s : promptState) :
  valid p s -> valid p (setHistoryIndex (indexAfterDown p (historyIndex s)) s).
Proof.
  intros Hv. apply valid_setHistoryIndex. unfold indexAfterDown, lastIndex.
  destruct (historyIndex s =? Z.of_nat (List.length (history p)) - 1) eqn:E1;
    cbn [orb]; [now left|].
  destruct (historyIndex s =? -1) eqn:E2; [now left|].
  apply Z.eqb_neq in E1, E2. destruct Hv as [Hv|Hv]; [contradiction|].
  right. lia.
Qed.

Lemma HistoryPrevious_valid (p : Prompt) (s : promptState) (w : World) :
  0 <= Width (terminal w) -> valid p s ->
  let s' := setHistoryIndex (indexAfterUp p (historyIndex s)) s in
  HistoryPrevious p s w = Ok (s', mkWorld (rendered p s' (terminal w)) (asked w)).
Proof.
  intros Hw Hv s'.
  assert (E : (if historyIndex s =? -1
               then if 0 <? Z.of_nat (List.length (history p))
                    then setHistoryIndex (lastIndex p) s else s
               else if 0 <? historyIndex s
                    then setHistoryIndex (historyIndex s - 1) s else s) = s').
  { unfold s', indexAfterUp.
    destruct (historyIndex s =? -1);
      [destruct (0 <? Z.of_nat (List.length (history p)))
      | destruct (0 <? historyIndex s)];
      try reflexivity; now destruct s. }
  unfold HistoryPrevious, bind. rewrite E.
  rewrite Render_valid; [reflexivity | exact Hw | exact (valid_indexAfterUp p s Hv)].
Qed.

Lemma HistoryNext_valid (p : Prompt) (s : promptState) (w : World) :
  0 <= Width (terminal w) -> valid p s ->
  let s' := setHistoryIndex (indexAfterDown p (historyIndex s)) s in
  HistoryNext p s w = Ok (s', mkWorld (rendered p s' (terminal w)) (asked w)).
Proof.
  intros Hw Hv s'.
  assert (E : (if (historyIndex s =? lastIndex p) || (historyIndex s =? -1)
               then setHistoryIndex (-1) s
               else setHistoryIndex (historyIndex s + 1) s) = s').
  { unfold s', indexAfterDown.
    now destruct ((historyIndex s =? lastIndex p) || (historyIndex s =? -1)). }
  unfold HistoryNext, bind. rewrite E.
  rewrite Render_valid; [reflexivity | exact Hw | exact (valid_indexAfterDown p s Hv)].
Qed.

Lemma Width_optionsPut (l : list string) (t : Terminal) :
  Width (optionsPut l t) = Width t.
Proof. revert t. induction l as [|o l IH]; intros t; simpl; [|rewrite IH]; reflexivity. Qed.

Lemma Width_listed (l : list string) (t : Terminal) : Width (listed l t) = Width t.
Proof. unfold listed. now rewrite Width_optionsPut. Qed.

Lemma Width_rendered (p : Prompt) (s : promptState) (t : Terminal) :
  Width (rendered p s t) = Width t.
Proof. reflexivity. Qed.

Lemma putOptions_ok (l : list string) (w : World) :
  putOptions l w = Ok (tt, mkWorld (optionsPut l (terminal w)) (asked w)).
Proof.
  revert w. induction l as [|o l IH]; intros w; simpl.
  - now destruct w.
  - run_monad. now rewrite IH.
Qed.

Lemma RenderCompletionOptions_ok (s : promptState) (w : World) :
  RenderCompletionOptions s w =
  Ok (tt, mkWorld (listed (match completionOptions s with
                           | Some l => l
                           | None => []
                           end) (terminal w)) (asked w)).
Proof. unfold RenderCompletionOptions. run_monad. now rewrite putOptions_ok. Qed.

Lemma commonRoot_panic (best : string) (l : list string) (e : panic) :
  commonRoot best l = Panic e -> e = RuneIndexOutOfRange.
Proof.
  revert best. induction l as [|o l IH]; intros best; simpl; [discriminate|].
  destruct (scanOption best o (range o)) as [b|e'] eqn:E.
  - apply IH.
  - intros H. inversion H; subst e'. clear H.
    revert E. generalize (range o) as r. induction r as [|[i c] r IHr]; simpl;
      [discriminate|].
    destruct (len best <=? i); [discriminate|].
    destruct (nth_error (runes best) (Z.to_nat i)) as [b|]; [|now inversion 1].
    destruct (negb (c =? b)); [discriminate | exact IHr].
Qed.

(** A Tab press with a cached list shows the list again and asks nobody. *)
Lemma CompleteSuggest_cached (p : Prompt) (s : promptState) (w : World)
      (fn : string -> option (list string)) (l : list string) :
  0 <= Width (terminal w) -> valid p s ->
  completionFn p = Some fn -> completionOptions s = Some l ->
  CompleteSuggest p s w =
  Ok (s, mkWorld (rendered p s (listed l (terminal w))) (asked w)).
Proof.
  intros Hw Hv Hfn Hc. unfold CompleteSuggest. rewrite Hfn, Hc. unfold bind.
  rewrite RenderCompletionOptions_ok, Hc.
  rewrite Render_valid; [reflexivity | | exact Hv].
  cbn [terminal]. now rewrite Width_listed.
Qed.

(** A Tab press without a cached list asks the callback about [line s], the
    live buffer, whatever [historyIndex] is; without candidates nothing else
    happens. *)
Lemma CompleteSuggest_nothing (p : Prompt) (s : promptState) (w : World)
      (fn : string -> option (list string)) :
  completionFn p = Some fn -> completionOptions s = None ->
  fn (line s) = None \/ fn (line s) = Some [] ->
  CompleteSuggest p s w = Ok (s, mkWorld (terminal w) (asked w ++ [line s])).
Proof.
  intros Hfn Hc H. unfold CompleteSuggest. rewrite Hfn, Hc. unfold bind, ask.
  assert (E : setCompletionOptions None s = s) by (destruct s; simpl in *; now subst).
  destruct H as [H|H]; rewrite H, E; reflexivity.
Qed.

(** A Tab press without a cached list, with candidates whose common root
    [best] the loops compute. *)
Lemma CompleteSuggest_fresh (p : Prompt) (s : promptState) (w : World)
      (fn : string -> option (list string))
      (first : string) (others : list string) (best : string) :
  0 <= Width (terminal w) -> valid p s ->
  completionFn p = Some fn -> completionOptions s = None ->
  fn (line s) = Some (first :: others) ->
  commonRoot first others = Ok best ->
  let s' := mkState (prompt s) best (-1)
              (if String.eqb (effectiveLine p s) best
               then Some (first :: others) else None) in
  let t' := if 1 <? Z.of_nat (List.length (first :: others))
            then listed (first :: others) (terminal w) else terminal w in
  CompleteSuggest p s w =
  Ok (s', mkWorld (rendered p s' t') (asked w ++ [line s])).
Proof.
  intros Hw Hv Hfn Hc Hopts Hbest s' t'.
  unfold CompleteSuggest. rewrite Hfn, Hc. unfold bind at 1. unfold ask.
  rewrite Hopts. unfold bind at 1.
  set (s1 := setCompletionOptions (Some (first :: others)) s).
  assert (Hv1 : valid p s1) by exact Hv.
  rewrite (MaybeUseHistory_valid _ _ _ Hv1).
  unfold bind at 1. unfold lift. rewrite Hbest.
  assert (Hline : line (collapsed p s1) = effectiveLine p s).
  { rewrite line_collapsed. reflexivity. }
  rewrite Hline.
  assert (Hs' : setLine best
                  (if negb (String.eqb (effectiveLine p s) best)
                   then setCompletionOptions None (collapsed p s1)
                   else collapsed p s1) = s').
  { unfold s', collapsed, s1. cbn [historyIndex setCompletionOptions].
    destruct (historyIndex s =? -1) eqn:Ei;
      destruct (String.eqb (effectiveLine p s) best); cbn [negb];
      try reflexivity;
      apply Z.eqb_eq in Ei; unfold setLine, setCompletionOptions; cbn;
      now rewrite Ei. }
  rewrite Hs'.
  assert (Hvs' : valid p s') by now left.
  unfold bind.
  destruct (1 <? Z.of_nat (List.length (first :: others))) eqn:Emany.
  - rewrite RenderCompletionOptions_ok.
    assert (Hco : completionOptions (collapsed p s1) = Some (first :: others)).
    { unfold collapsed, s1. cbn [historyIndex setCompletionOptions].
      now destruct (historyIndex s =? -1). }
    rewrite Hco. cbn [terminal asked].
    rewrite Render_valid; [reflexivity | | exact Hvs'].
    cbn [terminal]. now rewrite Width_listed.
  - unfold ret. rewrite Render_valid; [reflexivity | exact Hw | exact Hvs'].
Qed.

Lemma written_optionsPut (l : list string) (t : Terminal) :
  written (optionsPut l t)
  = written t
    ++ flat_map (fun option => [((option ++ newline)%string, []);
                                (termSetCursorColumn, [1])]) l.
Proof.
  revert t. induction l as [|o l IH]; intros t; cbn [optionsPut flat_map].
  - now rewrite app_nil_r.
  - rewrite IH. cbn [written SetCursorColumn Puts].
    rewrite <- !app_assoc. reflexivity.
Qed.

Lemma written_listed (l : list string) (t : Terminal) :
  written (listed l t) = written t ++ listingWrites l.
Proof.
  unfold listed, listingWrites. rewrite written_optionsPut.
  cbn [written SetCursorColumn Puts]. rewrite <- !app_assoc. reflexivity.
Qed.

Lemma written_rendered (p : Prompt) (s : promptState) (t : Terminal) :
  written (rendered p s t)
  = written t ++ renderWrites (Width t) (prompt s) (effectiveLine p s).
Proof.
  unfold rendered, renderWrites. cbn [written Puts SetCursorColumn].
  now rewrite <- !app_assoc.
Qed.

(** C4 (as the code has it).  After a Tab press that asks the callback and
    rewrites the buffer with the common root, the candidate list stays cached
    if and only if the resulting buffer equals the line shown before the
    press (the history entry when browsing, the live buffer otherwise); it is
    dropped if and only if the buffer changed.  With the list cached, the next
    Tab press does not ask the callback: it leaves the state as it is, writes
    the list again (a newline, then every candidate on a line of its own,
    the cursor moved to the first column after each) and renders the line. *)
Theorem C4_candidates_cached_iff_buffer_unchanged
        (p : Prompt) (s : promptState) (w : World)
        (fn : string -> option (list string))
        (first : string) (others : list string) (best : string) :
  0 <= Width (terminal w) -> valid p s ->
  completionFn p = Some fn -> completionOptions s = None ->
  fn (line s) = Some (first :: others) ->
  commonRoot first others = Ok best ->
  exists s' w',
    CompleteSuggest p s w = Ok (s', w')
    /\ line s' = best
    /\ (completionOptions s' = Some (first :: others)
        <-> line s' = effectiveLine p s)
    /\ (completionOptions s' = None <-> line s' <> effectiveLine p s)
    /\ (line s' = effectiveLine p s ->
        exists w'', CompleteSuggest p s' w' = Ok (s', w'')
                    /\ asked w'' = asked w'
                    /\ written (terminal w'')
                       = written (terminal w')
                         ++ listingWrites (first :: others)
                         ++ renderWrites (Width (terminal w)) (prompt s) (line s')).
Proof.
  intros Hw Hv Hfn Hc Hopts Hbest.
  pose proof (CompleteSuggest_fresh p s w fn first others best
                Hw Hv Hfn Hc Hopts Hbest) as H.
  cbv zeta in H. eexists. eexists. split; [exact H|].
  cbn [line completionOptions].
  destruct (String.eqb_spec (effectiveLine p s) best) as [E|E].
  - repeat split; intros; try congruence.
    assert (Hw' : Width (rendered p
                           (mkState (prompt s) best (-1) (Some (first :: others)))
                           (if 1 <? Z.of_nat (List.length (first :: others))
                            then listed (first :: others) (terminal w)
                            else terminal w))
                  = Width (terminal w)).
    { rewrite Width_rendered.
      destruct (1 <? _); [now rewrite Width_listed | reflexivity]. }
    eexists. split; [|split].
    + apply (CompleteSuggest_cached _ _ _ fn (first :: others));
        [ | now left | exact Hfn | reflexivity].
      cbn [terminal]. rewrite Hw'. exact Hw.
    + reflexivity.
    + cbn [terminal].
      rewrite (written_rendered p _ (listed _ _)).
      rewrite written_listed, Width_listed, Hw', <- app_assoc.
      reflexivity.
  - repeat split; intros; try congruence.
Qed.

Lemma C4_candidates_cached_iff_buffer_unchanged_witness :
  exists s' w' w'',
    CompleteSuggest (mkPrompt [] (Some (always ["blue"; "black"]%string)))
                    (mkState "> " "bl" (-1) None) console = Ok (s', w')
    /\ line s' = "bl"%string
    /\ completionOptions s' = Some ["blue"; "black"]%string
    /\ CompleteSuggest (mkPrompt [] (Some (always ["blue"; "black"]%string)))
                       s' w' = Ok (s', w'')
    /\ asked w'' = asked w'
    /\ written (terminal w'')
       = written (terminal w')
         ++ listingWrites ["blue"; "black"]%string
         ++ renderWrites 80 "> " "bl".
Proof.
  destruct (C4_candidates_cached_iff_buffer_unchanged
              (mkPrompt [] (Some (always ["blue"; "black"]%string)))
              (mkState "> " "bl" (-1) None) console
              (always ["blue"; "black"]%string) "blue" ["black"%string] "bl")
    as (s' & w' & H & Hl & Hc & _ & Hnext); try reflexivity.
  - discriminate.
  - now left.
  - destruct Hnext as (w'' & H2 & Ha & Hwr); [rewrite Hl; reflexivity|].
    exists s', w', w''. repeat split; try assumption.
    + apply Hc. rewrite Hl. reflexivity.
    + rewrite Hwr, Hl. reflexivity.
Defined.

(** C4, the claim as stated fails in both directions: from the buffer b the
    candidates blue and black rewrite the buffer to bl, which differs, and
    the list is not cached; from the buffer bl they leave the buffer as it
    was, and the list is cached. *)
Lemma C4_changed_buffer_drops_the_candidates :
  match CompleteSuggest (mkPrompt [] (Some (always ["blue"; "black"]%string)))
                        (mkState "> " "b" (-1) None) console with
  | Ok (s', _) => line s' = "bl"%string /\ completionOptions s' = None
  | Panic _ => False
  end
  /\ match CompleteSuggest (mkPrompt [] (Some (always ["blue"; "black"]%string)))
                           (mkState "> " "bl" (-1) None) console with
     | Ok (s', _) =>
       line s' = "bl"%string
       /\ completionOptions s' = Some ["blue"; "black"]%string
     | Panic _ => False
     end.
Proof. repeat split. Qed.

(** C5 (defect of the code).  The claim: the callback is asked about the
    effective line.  [CompleteSuggest] passes [s.line] before it calls
    [MaybeUseHistory]: while the history entry git is browsed over an empty
    live buffer, the callback is asked about the empty line, answers nil, and
    the completion github of the line shown is never offered. *)
Theorem C5_callback_gets_live_buffer_when_browsing :
  let p := mkPrompt ["git"%string] (Some completeGit) in
  let s := mkState "$ " "" 0 None in
  valid p s
  /\ effectiveLine p s = "git"%string
  /\ completeGit (effectiveLine p s) = Some ["github"%string]
  /\ CompleteSuggest p s console
     = Ok (s, mkWorld (terminal console) [EmptyString]).
Proof. repeat split. right. simpl. lia. Qed.

(** The two examples of the comment and of the specification hold. *)
Lemma CompleteSuggest_blue_black :
  match CompleteSuggest (mkPrompt [] (Some (always ["blue"; "black"]%string)))
                        (initialState "> ") console with
  | Ok (s', w') =>
    line s' = "bl"%string
    /\ written (terminal w')
       = written (rendered (mkPrompt [] None) s'
                    (listed ["blue"; "black"]%string (terminal console)))
  | Panic _ => False
  end.
Proof. vm_compute. split; reflexivity. Qed.

Lemma CompleteSuggest_blueberry :
  match CompleteSuggest (mkPrompt [] (Some (always ["blueberry"%string])))
                        (initialState "> ") console with
  | Ok (s', w') =>
    line s' = "blueberry"%string
    /\ written (terminal w')
       = written (rendered (mkPrompt [] None) s' (terminal console))
  | Panic _ => False
  end.
Proof. vm_compute. split; reflexivity. Qed.

(** C6 (defect of the code).  The claim, and the comment "Find the common
    root": the buffer becomes the longest common prefix of the candidates.
    The inner loop only shortens [bestOption] at a mismatch; a candidate that
    is a proper prefix of [bestOption] ends the loop without one.  For the
    candidates blue, bl the buffer becomes blue, which is not a prefix of bl.
    The loop also uses a byte index of the candidate as a rune index of
    [bestOption]: two equal candidates with a two-byte character panic. *)
Theorem C6_common_root_is_not_common_prefix :
  commonRoot "blue" ["bl"%string] = Ok "blue"%string
  /\ isPrefix "blue" "bl" = false
  /\ match CompleteSuggest (mkPrompt [] (Some (always ["blue"; "bl"]%string)))
                           (initialState "> ") console with
     | Ok (s', _) => line s' = "blue"%string
     | Panic _ => False
     end
  /\ (let cafe := of_bytes [99; 97; 102; 195; 169; 115] in
      runes cafe = [99; 97; 102; 233; 115]
      /\ commonRoot cafe [cafe] = Panic RuneIndexOutOfRange).
Proof. repeat split. Qed.

(** The loop on an Up or a Down key. *)
Lemma editLoop_keyUp (p : Prompt) (s : promptState) (evs : list Event) (w : World) :
  0 <= Width (terminal w) -> valid p s ->
  let s' := setHistoryIndex (indexAfterUp p (historyIndex s)) s in
  editLoop p s (keyUp :: evs) w
  = editLoop p s' evs (mkWorld (rendered p s' (terminal w)) (asked w)).
Proof.
  intros Hw Hv s'. cbn [editLoop]. unfold bind at 1.
  assert (E : handle p s keyUp = (s1 <- HistoryPrevious p s ;; ret (Continue s1)))
    by reflexivity.
  rewrite E. unfold bind at 1.
  now rewrite (HistoryPrevious_valid p s w Hw Hv).
Qed.

Lemma editLoop_keyDown (p : Prompt) (s : promptState) (evs : list Event) (w : World) :
  0 <= Width (terminal w) -> valid p s ->
  let s' := setHistoryIndex (indexAfterDown p (historyIndex s)) s in
  editLoop p s (keyDown :: evs) w
  = editLoop p s' evs (mkWorld (rendered p s' (terminal w)) (asked w)).
Proof.
  intros Hw Hv s'. cbn [editLoop]. unfold bind at 1.
  assert (E : handle p s keyDown = (s1 <- HistoryNext p s ;; ret (Continue s1)))
    by reflexivity.
  rewrite E. unfold bind at 1.
  now rewrite (HistoryNext_valid p s w Hw Hv).
Qed.

(** C7.  In a state of the editor (the index is -1 or an index of the
    history), Up moves from -1 to the last index when the history is not
    empty, decrements an index above 0, and changes nothing at index 0 or on
    an empty history; Down sets the index to -1 at the newest index and at
    -1, and increments it otherwise.  Neither changes the prompt, the buffer
    or the cached candidates.  With the history a, b, c, from the live state:
    three Up presses give the indices 2, 1, 0, a fourth changes nothing, Down
    from 0 gives 1, Down from -1 gives -1. *)
Theorem C7_history_navigation (p : Prompt) (s : promptState) (w : World) :
  0 <= Width (terminal w) -> valid p s ->
  (exists sU wU sD wD,
     HistoryPrevious p s w = Ok (sU, wU)
     /\ HistoryNext p s w = Ok (sD, wD)
     /\ (historyIndex s = -1 -> history p <> [] ->
         historyIndex sU = Z.of_nat (List.length (history p)) - 1)
     /\ (0 < historyIndex s -> historyIndex sU = historyIndex s - 1)
     /\ (historyIndex s = 0 \/ history p = [] -> sU = s)
     /\ (historyIndex s = Z.of_nat (List.length (history p)) - 1
         \/ historyIndex s = -1 -> historyIndex sD = -1)
     /\ (historyIndex s <> Z.of_nat (List.length (history p)) - 1 ->
         historyIndex s <> -1 -> historyIndex sD = historyIndex s + 1)
     /\ (prompt sU, line sU, completionOptions sU)
        = (prompt s, line s, completionOptions s)
     /\ (prompt sD, line sD, completionOptions sD)
        = (prompt s, line s, completionOptions s))
  /\ (let abc := mkPrompt ["a"; "b"; "c"]%string (completionFn p) in
      let live := initialState (prompt s) in
      indexAfter abc live [keyUp] w = Some 2
      /\ indexAfter abc live [keyUp; keyUp] w = Some 1
      /\ indexAfter abc live [keyUp; keyUp; keyUp] w = Some 0
      /\ indexAfter abc live [keyUp; keyUp; keyUp; keyUp] w = Some 0
      /\ indexAfter abc live [keyUp; keyUp; keyUp; keyDown] w = Some 1
      /\ indexAfter abc live [keyDown] w = Some (-1)).
Proof.
  intros Hw Hv. split.
  - exists (setHistoryIndex (indexAfterUp p (historyIndex s)) s).
    eexists.
    exists (setHistoryIndex (indexAfterDown p (historyIndex s)) s).
    eexists.
    split; [exact (HistoryPrevious_valid p s w Hw Hv)|].
    split; [exact (HistoryNext_valid p s w Hw Hv)|].
    cbn [historyIndex setHistoryIndex prompt line completionOptions].
    unfold indexAfterUp, indexAfterDown, lastIndex.
    repeat split.
    + intros E Hne. rewrite E. cbn [Z.eqb].
      destruct (history p) as [|h hs]; [contradiction|].
      reflexivity.
    + intros Hpos.
      destruct (historyIndex s =? -1) eqn:E; [apply Z.eqb_eq in E; lia|].
      destruct (0 <? historyIndex s) eqn:E2; [reflexivity|].
      apply Z.ltb_ge in E2. lia.
    + intros [E|E].
      * rewrite E. cbn. now destruct s; simpl in *; subst.
      * rewrite E. cbn [List.length Z.of_nat Z.ltb Z.compare].
        destruct Hv as [Hv|Hv]; [|rewrite E in Hv; simpl in Hv; lia].
        rewrite Hv. cbn. now destruct s; simpl in *; subst.
    + intros [E|E].
      * rewrite E, Z.eqb_refl. reflexivity.
      * rewrite E. now rewrite orb_true_r.
    + intros N1 N2.
      apply Z.eqb_neq in N1, N2. now rewrite N1, N2.
  - cbv zeta. unfold indexAfter.
    repeat split;
      repeat (first [rewrite editLoop_keyUp | rewrite editLoop_keyDown]);
      try reflexivity;
      try (cbn [terminal]; rewrite ?Width_rendered; exact Hw);
      repeat (first [apply valid_indexAfterUp | apply valid_indexAfterDown]);
      now left.
Qed.

Lemma C7_history_navigation_witness :
  let p := mkPrompt ["a"; "b"; "c"]%string None in
  let s := mkState "> " "" 1 None in
  0 <= Width (terminal console)
  /\ valid p s
  /\ exists sU wU sD wD,
       HistoryPrevious p s console = Ok (sU, wU)
       /\ HistoryNext p s console = Ok (sD, wD)
       /\ historyIndex sU = 0
       /\ historyIndex sD = 2.
Proof.
  cbv zeta.
  assert (Hw : 0 <= Width (terminal console)) by (cbn; lia).
  assert (Hv : valid (mkPrompt ["a"; "b"; "c"]%string None) (mkState "> " "" 1 None))
    by (right; cbn; lia).
  split; [exact Hw|]. split; [exact Hv|].
  destruct (C7_history_navigation _ _ _ Hw Hv)
    as [(sU & wU & sD & wD & HU & HD & _ & Hdec & _ & _ & Hinc & _) _].
  exists sU, wU, sD, wD.
  split; [exact HU|]. split; [exact HD|]. split.
  - rewrite Hdec; cbn; lia.
  - rewrite Hinc; cbn; [reflexivity | discriminate | discriminate].
Defined.

(* ------------------------------------------------------------------ *)
(** ** The invariant of the history index *)

Lemma CompleteSuggest_safe (p : Prompt) (s : promptState) (w : World) :
  0 <= Width (terminal w) -> valid p s ->
  match CompleteSuggest p s w with
  | Ok (s', w') => valid p s' /\ Width (terminal w') = Width (terminal w)
  | Panic e => e = RuneIndexOutOfRange
  end.
Proof.
  intros Hw Hv.
  destruct (completionFn p) as [fn|] eqn:Hfn.
  2:{ unfold CompleteSuggest. rewrite Hfn. cbn. now split. }
  destruct (completionOptions s) as [l|] eqn:Hc.
  { rewrite (CompleteSuggest_cached p s w fn l Hw Hv Hfn Hc).
    split; [exact Hv|]. cbn [terminal].
    now rewrite Width_rendered, Width_listed. }
  destruct (fn (line s)) as [[|first others]|] eqn:Hopts.
  - rewrite (CompleteSuggest_nothing p s w fn Hfn Hc) by now right.
    now split.
  - destruct (commonRoot first others) as [best|e] eqn:Hbest.
    + rewrite (CompleteSuggest_fresh p s w fn first others best
                 Hw Hv Hfn Hc Hopts Hbest).
      split; [now left|]. cbn [terminal]. rewrite Width_rendered.
      destruct (1 <? _); [now rewrite Width_listed | reflexivity].
    + unfold CompleteSuggest. rewrite Hfn, Hc. unfold bind at 1. unfold ask.
      rewrite Hopts. unfold bind at 1.
      rewrite MaybeUseHistory_valid by exact Hv.
      unfold bind at 1. unfold lift. rewrite Hbest.
      exact (commonRoot_panic _ _ _ Hbest).
  - rewrite (CompleteSuggest_nothing p s w fn Hfn Hc) by now left.
    now split.
Qed.

(** One iteration of the loop keeps the invariant and the width; the only
    panic left is the rune index of the completion. *)
Lemma handle_safe (p : Prompt) (s : promptState) (ev : Event) (w : World) :
  0 <= Width (terminal w) -> valid p s ->
  match handle p s ev w with
  | Ok (Continue s', w') => valid p s' /\ Width (terminal w') = Width (terminal w)
  | Ok (Return _ _, _) => True
  | Panic e => e = RuneIndexOutOfRange
  end.
Proof.
  intros Hw Hv. unfold handle.
  destruct (evType ev); [|cbn; now split].
  destruct (evKey ev =? KeyCtrlC); [exact I|].
  destruct (evKey ev =? KeyCtrlD); [exact I|].
  destruct (evKey ev =? KeyCr).
  { unfold bind at 1. rewrite MaybeUseHistory_valid by exact Hv. exact I. }
  destruct (evKey ev =? KeyBackspace).
  { unfold bind at 1. rewrite MaybeUseHistory_valid by exact Hv.
    destruct (0 <? len (line (collapsed p s))).
    - unfold bind.
      destruct (Edit_valid p chop (collapsed p s) w Hw (valid_collapsed p s))
        as [E V].
      rewrite E. split; [exact V|reflexivity].
    - cbn. split; [apply valid_collapsed | reflexivity]. }
  destruct (evKey ev =? KeyTab).
  { unfold bind. pose proof (CompleteSuggest_safe p s w Hw Hv) as H.
    destruct (CompleteSuggest p s w) as [[s' w']|e]; exact H. }
  destruct (evKey ev =? KeyUp).
  { unfold bind. rewrite (HistoryPrevious_valid p s w Hw Hv).
    split; [now apply valid_indexAfterUp | reflexivity]. }
  destruct (evKey ev =? KeyDown).
  { unfold bind. rewrite (HistoryNext_valid p s w Hw Hv).
    split; [now apply valid_indexAfterDown | reflexivity]. }
  destruct (evKey ev =? KeyCtrlU).
  { unfold bind.
    destruct (Edit_valid p (fun _ => EmptyString) s w Hw Hv) as [E V].
    rewrite E. split; [exact V|reflexivity]. }
  destruct (evKey ev =? KeyCtrlL).
  { unfold bind, clear, onTerminal.
    rewrite Render_valid; [|exact Hw|exact Hv].
    split; [exact Hv|reflexivity]. }
  destruct (evKey ev =? KeyRune).
  { unfold bind.
    destruct (Edit_valid p (fun l => (l ++ of_rune (evRune ev))%string) s w Hw Hv)
      as [E V].
    rewrite E. split; [exact V|reflexivity]. }
  cbn. now split.
Qed.

Lemma editLoop_safe (p : Prompt) (evs : list Event) (s : promptState) (w : World) :
  0 <= Width (terminal w) -> valid p s ->
  match editLoop p s evs w with
  | Ok (inl s', _) => valid p s'
  | Ok (inr _, _) => True
  | Panic e => e = RuneIndexOutOfRange
  end.
Proof.
  revert s w. induction evs as [|ev evs IH]; intros s w Hw Hv.
  - exact Hv.
  - cbn [editLoop]. unfold bind.
    pose proof (handle_safe p s ev w Hw Hv) as H.
    destruct (handle p s ev w) as [[[s'|l err] w']|e].
    + destruct H as [V W]. apply IH; [rewrite W; exact Hw | exact V].
    + exact I.
    + exact H.
Qed.

(** C10.  In a state where [historyIndex] is -1 or an index of the history,
    [HistoryPrevious], [HistoryNext], [MaybeUseHistory] and [Edit] return
    normally and leave such a state, and [Render] returns normally: the two
    places that read [history[historyIndex]] stay in bounds.  [Prompt] starts
    in such a state, so every state its loop reaches is one, whatever events
    arrive, and the loop never panics on the history index. *)
Theorem C10_history_index_invariant (p : Prompt) (s : promptState) (w : World) :
  0 <= Width (terminal w) -> valid p s ->
  (exists s' w', HistoryPrevious p s w = Ok (s', w') /\ valid p s')
  /\ (exists s' w', HistoryNext p s w = Ok (s', w') /\ valid p s')
  /\ (exists s' w', MaybeUseHistory p s w = Ok (s', w') /\ valid p s')
  /\ (forall cb, exists s' w', Edit p cb s w = Ok (s', w') /\ valid p s')
  /\ (exists w', Render p s w = Ok (tt, w'))
  /\ (forall promptText, valid p (initialState promptText))
  /\ (forall evs,
        match editLoop p s evs w with
        | Ok (inl s', _) => valid p s'
        | Ok (inr _, _) => True
        | Panic e => e <> HistoryIndexOutOfRange
        end).
Proof.
  intros Hw Hv. repeat split.
  - eexists. eexists. split; [exact (HistoryPrevious_valid p s w Hw Hv)|].
    now apply valid_indexAfterUp.
  - eexists. eexists. split; [exact (HistoryNext_valid p s w Hw Hv)|].
    now apply valid_indexAfterDown.
  - eexists. eexists. split; [exact (MaybeUseHistory_valid p s w Hv)|].
    apply valid_collapsed.
  - intros cb. destruct (Edit_valid p cb s w Hw Hv) as [E V].
    eexists. eexists. split; [exact E | exact V].
  - eexists. exact (Render_valid p s w Hw Hv).
  - intros promptText. now left.
  - intros evs. pose proof (editLoop_safe p evs s w Hw Hv) as H.
    destruct (editLoop p s evs w) as [[[s'|r] w']|e]; try exact H.
    subst e. discriminate.
Qed.

Lemma C10_history_index_invariant_witness :
  let p := mkPrompt ["a"; "b"; "c"]%string None in
  let s := mkState "> " "" 2 None in
  0 <= Width (terminal console)
  /\ valid p s
  /\ (exists s' w', HistoryNext p s console = Ok (s', w') /\ valid p s')
  /\ (exists w', Render p s console = Ok (tt, w')).
Proof.
  cbv zeta.
  assert (Hw : 0 <= Width (terminal console)) by (cbn; lia).
  assert (Hv : valid (mkPrompt ["a"; "b"; "c"]%string None) (mkState "> " "" 2 None))
    by (right; cbn; lia).
  split; [exact Hw|]. split; [exact Hv|].
  destruct (C10_history_index_invariant _ _ _ Hw Hv)
    as (_ & HN & _ & _ & HR & _).
  split; [exact HN | exact HR].
Defined.

(* ================================================================== *)
(** * Properties of the session *)
(* ================================================================== *)

(** What a successful [Start] leaves: open channels, a buffered reader, the
    mode the device had, and the device in raw mode. *)
Lemma Start_success (b : flagbits) (sc : syscalls) (t t1 : Terminal) (d d1 : Device) :
  Start b sc t d = (None, t1, d1) ->
  t1 = mkTerminal true (Some fromTty) true chanOpen chanOpen true
         (Some (devMode d)) chanOpen (devCols d) (devRows d) (written t)
  /\ d1 = mkDevice (rawMode b (devMode d)) (devCols d) (devRows d) true.
Proof.
  unfold Start, setMode.
  destruct (negb (in_ t) && negb (openOK sc)); [discriminate|].
  destruct (negb (out_ t) && negb (openOK sc)); [discriminate|].
  destruct (negb (getattrOK sc)); [discriminate|].
  cbn [andb].
  destruct (setattrOK sc); cbn [negb]; [|discriminate].
  destruct (negb (winsizeOK sc)); [discriminate|].
  intros H. inversion H. split; reflexivity.
Qed.

(** C9 (as the code has it).  On a session on which [Start] succeeded, the
    first [Stop] returns normally, clears [running], closes both channels
    and, when the ioctl succeeds, gives the device the mode it had before
    [Start].  A second [Stop] does not return normally: it panics on closing
    the rune channel, which is closed already, before it writes anything, so
    the session and the device stay as the first call left them. *)
Theorem C9_stop_once_then_panics
        (b : flagbits) (sc sc1 sc2 : syscalls) (t t1 : Terminal) (d d1 : Device) :
  Start b sc t d = (None, t1, d1) ->
  exists t2 d2,
    Stop sc1 t1 d1 = (Ok tt, t2, d2)
    /\ running t2 = false
    /\ runes_ t2 = chanClosed /\ events_ t2 = chanClosed
    /\ inBuffer t2 = Some fromNopReader
    /\ (setattrOK sc1 = true -> devMode d2 = devMode d)
    /\ Stop sc2 t2 d2 = (Panic CloseOfClosedChannel, t2, d2).
Proof.
  intros H. destruct (Start_success _ _ _ _ _ _ H) as [-> ->].
  unfold Stop, setMode. cbn.
  destruct (setattrOK sc1); cbn; eexists; eexists; repeat split.
  discriminate.
Qed.

Lemma C9_stop_once_then_panics_witness :
  Start linuxBits allOK NewTerminal cookedTty
  = (None,
     mkTerminal true (Some fromTty) true chanOpen chanOpen true
       (Some (devMode cookedTty)) chanOpen 80 24 [],
     mkDevice (rawMode linuxBits (devMode cookedTty)) 80 24 true)
  /\ exists t2 d2,
       Stop allOK
         (mkTerminal true (Some fromTty) true chanOpen chanOpen true
            (Some (devMode cookedTty)) chanOpen 80 24 [])
         (mkDevice (rawMode linuxBits (devMode cookedTty)) 80 24 true)
       = (Ok tt, t2, d2)
       /\ devMode d2 = devMode cookedTty
       /\ Stop allOK t2 d2 = (Panic CloseOfClosedChannel, t2, d2).
Proof.
  split; [reflexivity|].
  destruct (C9_stop_once_then_panics linuxBits allOK allOK allOK
              NewTerminal _ cookedTty _ eq_refl)
    as (t2 & d2 & H1 & _ & _ & _ & _ & Hm & H2).
  exists t2, d2. split; [exact H1|]. split; [exact (Hm eq_refl) | exact H2].
Defined.

(** C9, the claim as stated fails: after a successful [Start] and one
    [Stop], a second [Stop] panics. *)
Lemma C9_second_stop_panics :
  let '(started, t1, d1) := Start linuxBits allOK NewTerminal cookedTty in
  let '(first, t2, d2) := Stop allOK t1 d1 in
  let '(second, _, _) := Stop allOK t2 d2 in
  started = None
  /\ first = Ok tt
  /\ second = Panic CloseOfClosedChannel.
Proof. repeat split. Qed.

(* ================================================================== *)
(** * Further properties of the decode loop *)
(* ================================================================== *)

Lemma decodeSeq_skip_prefix (pre rest : list rune) :
  Forall (fun r => r <> KeyEsc) pre ->
  decodeSeq (pre ++ rest) = map ordinary pre ++ decodeSeq rest.
Proof.
  induction 1 as [|r pre Hr _ IH]; [reflexivity|].
  rewrite <- app_comm_cons, decodeSeq_cons.
  rewrite decodeHead_ordinary by (intros E; contradiction).
  cbn [fst snd skipn map app]. f_equal. exact IH.
Qed.

Lemma decodeHead_event (r : rune) (rest : list rune) :
  evType (fst (decodeHead r rest)) = EventKey
  /\ evKey (fst (decodeHead r rest)) <> KeyUnknown.
Proof.
  unfold decodeHead. cbv zeta.
  set (k2 := if (2 <=? List.length rest)%nat then _ else _).
  set (k3 := if (3 <=? List.length rest)%nat then _ else _).
  destruct (r =? KeyEsc).
  - destruct (Z.eqb_spec k2 KeyUnknown) as [E2|E2]; cbn [negb fst evType evKey keyEvent].
    + destruct (Z.eqb_spec k3 KeyUnknown) as [E3|E3];
        cbn [negb fst evType evKey keyEvent runeEvent].
      * split; [reflexivity | discriminate].
      * split; [reflexivity | exact E3].
    + split; [reflexivity | exact E2].
  - destruct ((r <? 27) || (r =? 127)) eqn:E; cbn [fst evType evKey keyEvent runeEvent].
    + split; [reflexivity|]. apply orb_true_iff in E. unfold KeyUnknown.
      destruct E as [E|E]; [apply Z.ltb_lt in E | apply Z.eqb_eq in E]; lia.
    + split; [reflexivity | discriminate].
Qed.

Lemma decodeSuffix_events (fuel : nat) (l : list rune) :
  (List.length (decodeSuffix fuel l) <= List.length l)%nat
  /\ Forall (fun e => evType e = EventKey /\ evKey e <> KeyUnknown)
            (decodeSuffix fuel l).
Proof.
  revert l. induction fuel as [|fuel IH]; intros l.
  - simpl. split; [lia | constructor].
  - destruct l as [|r rest]; simpl; [split; [lia | constructor]|].
    pose proof (decodeHead_event r rest) as He.
    destruct (decodeHead r rest) as [ev k]. cbn [fst] in He.
    destruct (IH (skipn k rest)) as [Hlen Hall].
    split.
    + simpl. rewrite length_skipn in Hlen. lia.
    + constructor; assumption.
Qed.

(** X1.  The runes gathered before the first escape rune are decoded one by
    one, whatever follows: a rune below 27 or equal to 127 is sent as the
    control key of that code, any other as a rune event carrying it.  A
    gathered sequence without an escape rune gives exactly one event per
    rune, in order. *)
Theorem decode_runes_before_escape (pre rest : list rune) :
  Forall (fun r => r <> KeyEsc) pre ->
  decodeSeq (pre ++ rest) = map ordinary pre ++ decodeSeq rest
  /\ decodeSeq pre = map ordinary pre
  /\ List.length (decodeSeq pre) = List.length pre
  /\ Forall2 (fun r e =>
                if (r <? 27) || (r =? 127)
                then e = mkEvent EventKey r 0
                else e = mkEvent EventKey KeyRune r)
             pre (decodeSeq pre).
Proof.
  intros H.
  assert (E : decodeSeq pre = map ordinary pre).
  { pose proof (decodeSeq_skip_prefix pre [] H) as E0.
    change (decodeSeq []) with (@nil Event) in E0.
    now rewrite !app_nil_r in E0. }
  split; [now apply decodeSeq_skip_prefix|].
  split; [exact E|]. split; [now rewrite E, length_map|].
  rewrite E. clear. induction pre as [|r pre IH]; constructor; [|exact IH].
  unfold ordinary. now destruct ((r <? 27) || (r =? 127)).
Qed.

Lemma decode_runes_before_escape_witness :
  Forall (fun r => r <> KeyEsc) [108; 115; 13]
  /\ decodeSeq ([108; 115; 13] ++ [27; 91; 65])
     = [runeEvent 108; runeEvent 115; keyEvent KeyCr; keyEvent KeyUp].
Proof.
  assert (H : Forall (fun r => r <> KeyEsc) [108; 115; 13])
    by (repeat constructor; discriminate).
  split; [exact H|].
  destruct (decode_runes_before_escape [108; 115; 13] [27; 91; 65] H) as [E _].
  exact E.
Defined.

(** X2.  For every gathered sequence the decode loop sends at most one event
    per rune; every event it sends is a key event, and none has the key
    KeyUnknown. *)
Theorem decode_events_are_known_keys (seq : list rune) :
  (List.length (decodeSeq seq) <= List.length seq)%nat
  /\ Forall (fun e => evType e = EventKey /\ evKey e <> KeyUnknown)
            (decodeSeq seq).
Proof.
  unfold decodeSeq. rewrite decodeLoop_decodeSuffix. cbn [skipn].
  apply decodeSuffix_events.
Qed.

(** X3.  A recognized pattern that ends the gathered sequence, after runes
    that contain no escape rune, is sent as the single key event of the
    table, after the events of the runes before it: Up, Down, Right, Left,
    Home and End (in both encodings), Shift-Tab, Delete, PageUp and
    PageDown. *)
Theorem decode_pattern_at_end (pre pat : list rune) (k : Key) :
  Forall (fun r => r <> KeyEsc) pre ->
  In (pat, k) escapeTable ->
  decodeSeq (pre ++ KeyEsc :: pat) = map ordinary pre ++ [keyEvent k].
Proof.
  intros H Hin. rewrite decodeSeq_skip_prefix by exact H. f_equal.
  unfold escapeTable in Hin. cbn [In] in Hin.
  repeat (destruct Hin as [Hin|Hin]; [inversion Hin; subst; reflexivity|]).
  contradiction.
Qed.

Lemma decode_pattern_at_end_witness :
  Forall (fun r => r <> KeyEsc) [97]
  /\ In ([91; 51; 126], KeyDel) escapeTable
  /\ decodeSeq [97; 27; 91; 51; 126] = [runeEvent 97; keyEvent KeyDel].
Proof.
  assert (H : Forall (fun r => r <> KeyEsc) [97])
    by (repeat constructor; discriminate).
  assert (Hin : In ([91; 51; 126], KeyDel) escapeTable)
    by (unfold escapeTable; cbn; tauto).
  split; [exact H|]. split; [exact Hin|].
  exact (decode_pattern_at_end [97] [91; 51; 126] KeyDel H Hin).
Defined.





(** X6.  When the window size cannot be read after a resize signal, on a
    session that [Start] had set up, [readEvents] sends no event, stops the
    session and panics: [running] is cleared, both channels are closed, the
    width is -1 and, the ioctl succeeding, the device has the mode it had
    before [Start]. *)
Theorem readEvents_stops_session_when_size_fails
        (b : flagbits) (sc0 sc : syscalls) (t t1 : Terminal) (d d1 : Device)
        (cols rows : Z) (rest : list received) :
  Start b sc0 t d = (None, t1, d1) ->
  winsizeOK sc = false ->
  setattrOK sc = true ->
  exists t2 d2,
    readEvents sc t1 d1 (fromSigwinch true cols rows :: rest)
    = ([], Panicked, t2, d2)
    /\ running t2 = false
    /\ runes_ t2 = chanClosed /\ events_ t2 = chanClosed
    /\ Width t2 = -1
    /\ devMode d2 = devMode d.
Proof.
  intros H Hws Hset. destruct (Start_success _ _ _ _ _ _ H) as [-> ->].
  cbn [readEvents]. rewrite Hws. unfold Stop, setMode. cbn. rewrite Hset. cbn.
  eexists. eexists. repeat split.
Qed.

Lemma readEvents_stops_session_when_size_fails_witness :
  exists t2 d2,
    readEvents (mkSyscalls true true true false)
      (mkTerminal true (Some fromTty) true chanOpen chanOpen true
         (Some (devMode cookedTty)) chanOpen 80 24 [])
      (mkDevice (rawMode linuxBits (devMode cookedTty)) 80 24 true)
      [fromSigwinch true 100 30]
    = ([], Panicked, t2, d2)
    /\ devMode d2 = devMode cookedTty.
Proof.
  destruct (readEvents_stops_session_when_size_fails linuxBits allOK
              (mkSyscalls true true true false) NewTerminal _ cookedTty _
              100 30 [] eq_refl eq_refl eq_refl)
    as (t2 & d2 & E & _ & _ & _ & _ & Hm).
  exists t2, d2. split; [exact E | exact Hm].
Defined.

(* ================================================================== *)
(** * Further properties of the session *)
(* ================================================================== *)






(** X10.  A session that was started and stopped can be started again
    without opening the device anew: given the three ioctls succeed, the
    second [Start] returns no error, makes new channels, reads from the
    device again and captures the mode the device has then, and the [Stop]
    after it returns normally. *)
Theorem Start_again_after_Stop
        (b : flagbits) (sc sc1 sc2 sc3 : syscalls)
        (t t1 t2 : Terminal) (d d1 d2 : Device) :
  Start b sc t d = (None, t1, d1) ->
  Stop sc1 t1 d1 = (Ok tt, t2, d2) ->
  getattrOK sc2 = true -> setattrOK sc2 = true -> winsizeOK sc2 = true ->
  exists t3 d3,
    Start b sc2 t2 d2 = (None, t3, d3)
    /\ runes_ t3 = chanOpen /\ events_ t3 = chanOpen
    /\ inBuffer t3 = Some fromTty
    /\ originalMode t3 = Some (devMode d2)
    /\ devMode d3 = rawMode b (devMode d2)
    /\ exists t4 d4, Stop sc3 t3 d3 = (Ok tt, t4, d4).
Proof.
  intros H1 H2 Hg Hs Hw. destruct (Start_success _ _ _ _ _ _ H1) as [-> ->].
  revert H2. unfold Stop, setMode. cbn.
  destruct (setattrOK sc1); cbn; intros H2; inversion H2; subst;
    unfold Start, setMode; cbn; rewrite Hg, Hs, Hw; cbn;
    (eexists; eexists; repeat split;
     unfold Stop, setMode; cbn; destruct (setattrOK sc3); cbn;
     eexists; eexists; reflexivity).
Qed.

Lemma Start_again_after_Stop_witness :
  let '(_, t1, d1) := Start linuxBits allOK NewTerminal cookedTty in
  let '(_, t2, d2) := Stop allOK t1 d1 in
  exists t3 d3,
    Start linuxBits (mkSyscalls false true true true) t2 d2 = (None, t3, d3)
    /\ originalMode t3 = Some (devMode cookedTty).
Proof.
  cbn.
  destruct (Start_again_after_Stop linuxBits allOK allOK
              (mkSyscalls false true true true) allOK NewTerminal _ _
              cookedTty _ _ eq_refl eq_refl eq_refl eq_refl eq_refl)
    as (t3 & d3 & E & _ & _ & _ & Ho & _).
  exists t3, d3. split; [exact E | exact Ho].
Defined.

Ltac bitwise :=
  apply Z.bits_inj'; intros ? _;
  rewrite ?Z.land_spec, ?Z.lor_spec, ?Z.ldiff_spec, ?Z.bits_0;
  rewrite ?Z.land_spec, ?Z.lor_spec, ?Z.ldiff_spec, ?Z.bits_0;
  rewrite ?Z.land_spec, ?Z.lor_spec, ?Z.ldiff_spec, ?Z.bits_0;
  btauto.

Lemma ldiff_twice (x m : Z) : Z.ldiff (Z.ldiff x m) m = Z.ldiff x m.
Proof. bitwise. Qed.

Lemma ldiff_lor_twice (x s m : Z) :
  Z.ldiff (Z.lor (Z.ldiff (Z.lor x s) m) s) m = Z.ldiff (Z.lor x s) m.
Proof. bitwise. Qed.

Lemma land_ldiff_lor_l (x f m : Z) : Z.land (Z.ldiff x (Z.lor f m)) f = 0.
Proof. bitwise. Qed.

Lemma land_ldiff_weaken (x f g m : Z) :
  Z.land (Z.ldiff x m) f = 0 -> Z.land (Z.ldiff x (Z.lor g m)) f = 0.
Proof.
  intros H. apply Z.bits_inj'. intros n _.
  assert (Hn := f_equal (fun z => Z.testbit z n) H). cbv beta in Hn.
  rewrite Z.land_spec, Z.ldiff_spec, Z.bits_0 in Hn.
  rewrite Z.land_spec, Z.ldiff_spec, Z.lor_spec, Z.bits_0.
  destruct (Z.testbit x n), (Z.testbit m n), (Z.testbit f n), (Z.testbit g n);
    cbn in *; congruence.
Qed.

Lemma land_ldiff_self (x f : Z) : Z.land (Z.ldiff x f) f = 0.
Proof. bitwise. Qed.

(** X11.  Building the raw mode from a mode that is raw already changes
    nothing, and the control characters and the two speeds are those of the
    mode it was built from. *)
Theorem rawMode_idempotent (b : flagbits) (m : termios) :
  rawMode b (rawMode b m) = rawMode b m
  /\ Cc (rawMode b m) = Cc m
  /\ Ispeed (rawMode b m) = Ispeed m
  /\ Ospeed (rawMode b m) = Ospeed m.
Proof.
  repeat split. unfold rawMode, cloneMode.
  cbn [Iflag Oflag Cflag Lflag Cc Ispeed Ospeed].
  now rewrite !ldiff_twice, ldiff_lor_twice.
Qed.

(** X12.  In the raw mode every flag that [Start] turns off is off, whatever
    the mode before: echo, echo of newlines, canonical input, signal
    characters and extended input processing; output post-processing; break
    handling, parity marking, stripping, the newline and carriage-return
    translations and XON/XOFF flow control. *)
Theorem rawMode_flags_off (b : flagbits) (m : termios) :
  (Z.land (Lflag (rawMode b m)) (ECHO b) = 0
   /\ Z.land (Lflag (rawMode b m)) (ECHONL b) = 0
   /\ Z.land (Lflag (rawMode b m)) (ICANON b) = 0
   /\ Z.land (Lflag (rawMode b m)) (ISIG b) = 0
   /\ Z.land (Lflag (rawMode b m)) (IEXTEN b) = 0)
  /\ Z.land (Oflag (rawMode b m)) (OPOST b) = 0
  /\ (Z.land (Iflag (rawMode b m)) (IGNBRK b) = 0
      /\ Z.land (Iflag (rawMode b m)) (BRKINT b) = 0
      /\ Z.land (Iflag (rawMode b m)) (PARMRK b) = 0
      /\ Z.land (Iflag (rawMode b m)) (ISTRIP b) = 0
      /\ Z.land (Iflag (rawMode b m)) (INLCR b) = 0
      /\ Z.land (Iflag (rawMode b m)) (IGNCR b) = 0
      /\ Z.land (Iflag (rawMode b m)) (ICRNL b) = 0
      /\ Z.land (Iflag (rawMode b m)) (IXON b) = 0)
  /\ Z.land (Cflag (rawMode b m)) (PARENB b) = 0.
Proof.
  unfold rawMode, cloneMode. cbn [Iflag Oflag Cflag Lflag].
  repeat split;
    repeat first [ apply land_ldiff_self
                 | apply land_ldiff_lor_l
                 | apply land_ldiff_weaken ].
Qed.

(** X13.  The character size: [Start] sets the bits of CS8 and then clears
    those of CSIZE.  Where the bits of CS8 lie within CSIZE or PARENB, as on
    Linux where CS8 and CSIZE are the same bits, the raw mode has no bit of
    CS8 set. *)
Theorem rawMode_clears_character_size (b : flagbits) (m : termios) :
  Z.land (CS8 b) (Z.lor (CSIZE b) (PARENB b)) = CS8 b ->
  Z.land (Cflag (rawMode b m)) (CS8 b) = 0.
Proof.
  intros H. unfold rawMode, cloneMode. cbn [Cflag].
  rewrite <- H at 2. bitwise.
Qed.

Lemma rawMode_clears_character_size_witness :
  Z.land (CS8 linuxBits) (Z.lor (CSIZE linuxBits) (PARENB linuxBits)) = CS8 linuxBits
  /\ Z.land (Cflag (rawMode linuxBits (devMode cookedTty))) 0x30 = 0.
Proof.
  split; [reflexivity|].
  exact (rawMode_clears_character_size linuxBits (devMode cookedTty) eq_refl).
Defined.

Lemma wrap64_small (z : Z) : - 2 ^ 63 <= z < 2 ^ 63 -> wrap64 z = z.
Proof.
  intros H. unfold wrap64. rewrite Z.mod_small by lia. lia.
Qed.

(** X14.  [SetFg] and [SetBg] write one colour sequence and nothing else.
    For a colour from 0 to 8 its arguments are 0 and the colour plus 30 (40
    for the background); for a colour from 9 to 16 they are 1 and the colour
    minus 8 plus 30 (40), so that the colour 9 + k is written with the code
    of the base colour k + 1. *)
Theorem setColor_codes (c : Color) (t : Terminal) :
  0 <= c <= 16 ->
  let base := if c <=? 8 then c else c - 8 in
  let bright := if c <=? 8 then 0 else 1 in
  written (SetFg c t) = written t ++ [(termSetColor, [bright; 30 + base])]
  /\ written (SetBg c t) = written t ++ [(termSetColor, [bright; 40 + base])]
  /\ Width (SetFg c t) = Width t
  /\ Width (SetBg c t) = Width t.
Proof.
  intros H base bright. unfold SetFg, SetBg, setColor, base, bright.
  cbn [written Puts Width].
  destruct (c <=? 8) eqn:E8.
  - apply Z.leb_le in E8.
    assert (E : (8 <? c) = false) by (apply Z.ltb_ge; lia).
    rewrite E. cbn [andb].
    rewrite !wrap64_small by lia.
    rewrite (Z.add_comm c 30), (Z.add_comm c 40). repeat split.
  - apply Z.leb_gt in E8.
    assert (E : (8 <? c) = true) by (apply Z.ltb_lt; lia).
    assert (E' : (c <=? 16) = true) by (apply Z.leb_le; lia).
    rewrite E, E'. cbn [andb].
    rewrite (wrap64_small (c - 8)) by lia.
    rewrite !wrap64_small by lia.
    rewrite (Z.add_comm (c - 8) 30), (Z.add_comm (c - 8) 40). repeat split.
Qed.

Lemma setColor_codes_witness :
  0 <= ColorBrightRed <= 16
  /\ written (SetFg ColorBrightRed NewTerminal) = [(termSetColor, [1; 32])]
  /\ written (SetFg ColorGreen NewTerminal) = [(termSetColor, [0; 32])].
Proof.
  assert (H : 0 <= ColorBrightRed <= 16) by (unfold ColorBrightRed; lia).
  split; [exact H|].
  destruct (setColor_codes ColorBrightRed NewTerminal H) as [E _].
  split; [exact E | reflexivity].
Defined.

(* ================================================================== *)
(** * Further properties of the line editor *)
(* ================================================================== *)

Lemma append_assoc (a b c : string) : ((a ++ b) ++ c = a ++ (b ++ c))%string.
Proof. induction a as [|x a IH]; simpl; [reflexivity | now rewrite IH]. Qed.

Lemma append_nil_r (a : string) : (a ++ "")%string = a.
Proof. induction a as [|x a IH]; simpl; [reflexivity | now rewrite IH]. Qed.

Lemma length_append (a b : string) :
  String.length (a ++ b) = (String.length a + String.length b)%nat.
Proof. induction a as [|x a IH]; simpl; [reflexivity | now rewrite IH]. Qed.

Lemma Join_snoc (l : list string) (x sep : string) :
  Join (l ++ [x]) sep =
  match l with
  | [] => x
  | _ :: _ => (Join l sep ++ sep ++ x)%string
  end.
Proof.
  induction l as [|a l IH]; [reflexivity|].
  destruct l as [|b l]; [reflexivity|].
  change (Join ((a :: b :: l) ++ [x]) sep)
    with (a ++ sep ++ Join ((b :: l) ++ [x]) sep)%string.
  rewrite IH.
  change (Join (a :: b :: l) sep) with (a ++ sep ++ Join (b :: l) sep)%string.
  now rewrite !append_assoc.
Qed.

(** X15.  [AppendHistory] adds the line as the newest entry and keeps the
    callback; the exported history is then the line alone when the history
    was empty, and the former export, a newline and the line otherwise. *)
Theorem History_AppendHistory (l : string) (p : Prompt) :
  history (AppendHistory l p) = history p ++ [l]
  /\ completionFn (AppendHistory l p) = completionFn p
  /\ History (AppendHistory l p)
     = match history p with
       | [] => l
       | _ :: _ => (History p ++ newline ++ l)%string
       end.
Proof.
  repeat split. unfold History, AppendHistory. cbn [history].
  apply Join_snoc.
Qed.

Lemma validb_valid (p : Prompt) (s : promptState) :
  validb p s = true <-> valid p s.
Proof.
  unfold validb, valid. rewrite orb_true_iff, andb_true_iff.
  rewrite Z.eqb_eq, Z.leb_le, Z.ltb_lt. tauto.
Qed.

Lemma length_Repeat_blank (n : nat) : String.length (Repeat " " n) = n.
Proof. induction n as [|n IH]; simpl; [reflexivity | now rewrite IH]. Qed.

(** X16.  [Render] returns normally exactly when the width of the terminal is
    not negative and the history index is -1 or an index of the history.  It
    then makes four writes and nothing else: the cursor to the first column,
    as many blanks as the terminal is wide, the cursor to the first column
    again, and the prompt followed by the effective line.  A negative width
    panics in [strings.Repeat], an index outside the history panics on the
    history. *)
Theorem Render_outcome (p : Prompt) (s : promptState) (w : World) :
  Render p s w =
  (if Width (terminal w) <? 0 then Panic NegativeRepeatCount
   else if validb p s then
     Ok (tt, mkWorld (rendered p s (terminal w)) (asked w))
   else Panic HistoryIndexOutOfRange)
  /\ written (rendered p s (terminal w))
     = written (terminal w)
       ++ renderWrites (Width (terminal w)) (prompt s) (effectiveLine p s)
  /\ String.length (Repeat " " (Z.to_nat (Width (terminal w))))
     = Z.to_nat (Width (terminal w))
  /\ Width (rendered p s (terminal w)) = Width (terminal w).
Proof.
  split; [|split; [|split]]; try reflexivity.
  - destruct (Width (terminal w) <? 0) eqn:Ew.
    + unfold Render. run_monad.
      change (Width (SetCursorColumn 0 (terminal w))) with (Width (terminal w)).
      now rewrite Ew.
    + apply Z.ltb_ge in Ew. destruct (validb p s) eqn:Ev.
      * apply validb_valid in Ev. now apply Render_valid.
      * unfold Render. run_monad.
        change (Width (SetCursorColumn 0 (terminal w))) with (Width (terminal w)).
        destruct (Width (terminal w) <? 0) eqn:Ew'; [apply Z.ltb_lt in Ew'; lia|].
        unfold validb in Ev. apply orb_false_iff in Ev. destruct Ev as [Ei Eb].
        rewrite Ei. unfold historyAt.
        destruct (historyIndex s <? 0) eqn:E0; cbn [orb]; [reflexivity|].
        rewrite Z.ltb_ge in E0. apply Z.leb_le in E0. rewrite E0 in Eb.
        cbn [andb] in Eb. apply Z.ltb_ge in Eb. apply Z.leb_le in Eb.
        now rewrite Eb.
  - unfold rendered, renderWrites. cbn [written Puts SetCursorColumn].
    now rewrite <- !app_assoc.
  - apply length_Repeat_blank.
Qed.

Lemma collapsed_state (p : Prompt) (s : promptState) :
  collapsed p s
  = mkState (prompt s) (effectiveLine p s) (-1) (completionOptions s).
Proof.
  unfold collapsed, effectiveLine. destruct (historyIndex s =? -1) eqn:E.
  - apply Z.eqb_eq in E. destruct s; simpl in *. now subst.
  - reflexivity.
Qed.

Lemma Edit_state (p : Prompt) (cb : string -> string) (s : promptState) (w : World) :
  0 <= Width (terminal w) -> valid p s ->
  let s' := mkState (prompt s) (cb (effectiveLine p s)) (-1) None in
  Edit p cb s w = Ok (s', mkWorld (rendered p s' (terminal w)) (asked w)).
Proof.
  intros Hw Hv s'. destruct (Edit_valid p cb s w Hw Hv) as [E _].
  rewrite E. rewrite collapsed_state. reflexivity.
Qed.

Lemma handle_key (p : Prompt) (s : promptState) (ev : Event) :
  evType ev = EventKey ->
  handle p s ev =
  (let k := evKey ev in
   if k =? KeyCtrlC then ret (Return EmptyString (Some ErrorPromptAborted))
   else if k =? KeyCtrlD then ret (Return EmptyString (Some ErrorPromptEnded))
   else if k =? KeyCr then
     s1 <- MaybeUseHistory p s ;;
     puts newline ;;
     setCursorColumn 0 ;;
     ret (Return (line s1) None)
   else if k =? KeyBackspace then
     s1 <- MaybeUseHistory p s ;;
     if 0 <? len (line s1)
     then (s2 <- Edit p chop s1 ;; ret (Continue s2))
     else ret (Continue s1)
   else if k =? KeyTab then
     s1 <- CompleteSuggest p s ;; ret (Continue s1)
   else if k =? KeyUp then
     s1 <- HistoryPrevious p s ;; ret (Continue s1)
   else if k =? KeyDown then
     s1 <- HistoryNext p s ;; ret (Continue s1)
   else if k =? KeyCtrlU then
     s1 <- Edit p (fun _ => EmptyString) s ;; ret (Continue s1)
   else if k =? KeyCtrlL then
     clear ;; Render p s ;; ret (Continue s)
   else if k =? KeyRune then
     s1 <- Edit p (fun l => (l ++ of_rune (evRune ev))%string) s ;;
     ret (Continue s1)
   else ret (Continue s)).
Proof. intros H. unfold handle. now rewrite H. Qed.

Lemma handle_Enter (p : Prompt) (s : promptState) (ev : Event) (w : World) :
  evType ev = EventKey -> evKey ev = KeyCr -> valid p s ->
  handle p s ev w =
  Ok (Return (effectiveLine p s) None,
      mkWorld (SetCursorColumn 0 (Puts newline [] (terminal w))) (asked w)).
Proof.
  intros Ht Hk Hv. rewrite (handle_key p s ev Ht). cbv zeta. rewrite Hk.
  change (KeyCr =? KeyCtrlC) with false. change (KeyCr =? KeyCtrlD) with false.
  change (KeyCr =? KeyCr) with true. cbv iota.
  unfold bind at 1. rewrite (MaybeUseHistory_valid p s w Hv).
  rewrite line_collapsed. reflexivity.
Qed.

Lemma handle_typed (p : Prompt) (s : promptState) (ev : Event) (w : World) :
  evType ev = EventKey -> evKey ev = KeyRune ->
  0 <= Width (terminal w) -> valid p s ->
  let s' := mkState (prompt s) (effectiveLine p s ++ of_rune (evRune ev)) (-1) None in
  handle p s ev w
  = Ok (Continue s', mkWorld (rendered p s' (terminal w)) (asked w)).
Proof.
  intros Ht Hk Hw Hv s'. rewrite (handle_key p s ev Ht). cbv zeta. rewrite Hk.
  change (KeyRune =? KeyCtrlC) with false. change (KeyRune =? KeyCtrlD) with false.
  change (KeyRune =? KeyCr) with false. change (KeyRune =? KeyBackspace) with false.
  change (KeyRune =? KeyTab) with false. change (KeyRune =? KeyUp) with false.
  change (KeyRune =? KeyDown) with false. change (KeyRune =? KeyCtrlU) with false.
  change (KeyRune =? KeyCtrlL) with false. change (KeyRune =? KeyRune) with true.
  cbv iota. unfold bind.
  now rewrite (Edit_state p (fun l => (l ++ of_rune (evRune ev))%string) s w Hw Hv).
Qed.

(** X17.  Enter, from a state of the editor, ends [Prompt] with the effective
    line (the history entry when browsing, the buffer otherwise) and no
    error, after writing a newline and moving the cursor to the first
    column.  Ctrl-C and Ctrl-D end it in every state with an empty line and
    the errors aborted and ended, and write nothing. *)
Theorem handle_ends_prompt (p : Prompt) (s : promptState) (ev : Event) (w : World) :
  evType ev = EventKey ->
  (evKey ev = KeyCtrlC ->
   handle p s ev w = Ok (Return EmptyString (Some ErrorPromptAborted), w))
  /\ (evKey ev = KeyCtrlD ->
      handle p s ev w = Ok (Return EmptyString (Some ErrorPromptEnded), w))
  /\ (evKey ev = KeyCr -> valid p s ->
      handle p s ev w
      = Ok (Return (effectiveLine p s) None,
            mkWorld (SetCursorColumn 0 (Puts newline [] (terminal w))) (asked w))).
Proof.
  intros Ht. repeat split.
  - intros Hk. rewrite (handle_key p s ev Ht). cbv zeta. now rewrite Hk.
  - intros Hk. rewrite (handle_key p s ev Ht). cbv zeta. now rewrite Hk.
  - intros Hk Hv. now apply handle_Enter.
Qed.

Lemma handle_ends_prompt_witness :
  let p := mkPrompt ["ls"; "pwd"]%string None in
  let s := mkState "$ " "draft" 1 None in
  evType (keyEvent KeyCr) = EventKey
  /\ handle p s (keyEvent KeyCr) console
     = Ok (Return "pwd" None,
           mkWorld (SetCursorColumn 0 (Puts newline [] (terminal console))) []).
Proof.
  cbv zeta. split; [reflexivity|].
  destruct (handle_ends_prompt (mkPrompt ["ls"; "pwd"]%string None)
              (mkState "$ " "draft" 1 None) (keyEvent KeyCr) console eq_refl)
    as (_ & _ & H).
  apply H; [reflexivity | right; cbn; lia].
Defined.

(** X18.  A printable rune and Ctrl-U edit the effective line: while a
    history entry is browsed they start from that entry, not from the buffer
    left behind.  The rune is appended in its UTF-8 encoding, Ctrl-U empties
    the line; both leave browsing, drop the cached candidates and render the
    new line. *)
Theorem handle_edit_forks_from_history
        (p : Prompt) (s : promptState) (ev : Event) (w : World) :
  evType ev = EventKey -> 0 <= Width (terminal w) -> valid p s ->
  (evKey ev = KeyRune ->
   let s' := mkState (prompt s) (effectiveLine p s ++ of_rune (evRune ev)) (-1) None in
   handle p s ev w
   = Ok (Continue s', mkWorld (rendered p s' (terminal w)) (asked w)))
  /\ (evKey ev = KeyCtrlU ->
      let s' := mkState (prompt s) EmptyString (-1) None in
      handle p s ev w
      = Ok (Continue s', mkWorld (rendered p s' (terminal w)) (asked w))).
Proof.
  intros Ht Hw Hv. split.
  - intros Hk. now apply handle_typed.
  - intros Hk s'. rewrite (handle_key p s ev Ht). cbv zeta. rewrite Hk.
    change (KeyCtrlU =? KeyCtrlC) with false. change (KeyCtrlU =? KeyCtrlD) with false.
    change (KeyCtrlU =? KeyCr) with false. change (KeyCtrlU =? KeyBackspace) with false.
    change (KeyCtrlU =? KeyTab) with false. change (KeyCtrlU =? KeyUp) with false.
    change (KeyCtrlU =? KeyDown) with false. change (KeyCtrlU =? KeyCtrlU) with true.
    cbv iota. unfold bind.
    now rewrite (Edit_state p (fun _ => EmptyString) s w Hw Hv).
Qed.

Lemma handle_edit_forks_from_history_witness :
  let p := mkPrompt ["ls"; "pwd"]%string None in
  let s := mkState "$ " "draft" 0 (Some ["x"%string]) in
  0 <= Width (terminal console) /\ valid p s
  /\ exists w',
       handle p s (runeEvent 33) console
       = Ok (Continue (mkState "$ " "ls!" (-1) None), w').
Proof.
  cbv zeta.
  assert (Hw : 0 <= Width (terminal console)) by (cbn; lia).
  assert (Hv : valid (mkPrompt ["ls"; "pwd"]%string None)
                     (mkState "$ " "draft" 0 (Some ["x"%string])))
    by (right; cbn; lia).
  split; [exact Hw|]. split; [exact Hv|].
  destruct (handle_edit_forks_from_history _ _ (runeEvent 33) console
              eq_refl Hw Hv) as [H _].
  eexists. exact (H eq_refl).
Defined.

Lemma substring_prefix (n : nat) (s : string) :
  String.prefix (String.substring 0 n s) s = true
  /\ String.length (String.substring 0 n s) = Nat.min n (String.length s).
Proof.
  revert n. induction s as [|c s IH]; intros [|n]; simpl; try (split; reflexivity).
  destruct (IH n) as [Hp Hl]. rewrite Hl.
  split; [|reflexivity].
  destruct (ascii_dec c c) as [_|N]; [exact Hp | contradiction].
Qed.

(** X19.  Backspace, from a state of the editor, first leaves browsing with
    the history entry as the line.  On an empty line it does nothing more:
    nothing is written and the cached candidates stay.  Otherwise it removes
    the last byte of the line (one byte, also of a character encoded in
    several), drops the cached candidates and renders. *)
Theorem handle_backspace (p : Prompt) (s : promptState) (ev : Event) (w : World) :
  evType ev = EventKey -> evKey ev = KeyBackspace ->
  0 <= Width (terminal w) -> valid p s ->
  (effectiveLine p s = EmptyString ->
   handle p s ev w
   = Ok (Continue (mkState (prompt s) EmptyString (-1) (completionOptions s)), w))
  /\ (effectiveLine p s <> EmptyString ->
      let s' := mkState (prompt s) (chop (effectiveLine p s)) (-1) None in
      handle p s ev w
      = Ok (Continue s', mkWorld (rendered p s' (terminal w)) (asked w))
      /\ isPrefix (chop (effectiveLine p s)) (effectiveLine p s) = true
      /\ S (String.length (chop (effectiveLine p s)))
         = String.length (effectiveLine p s)).
Proof.
  intros Ht Hk Hw Hv.
  assert (E : handle p s ev w =
              if 0 <? len (effectiveLine p s)
              then (s2 <- Edit p chop (collapsed p s) ;; ret (Continue s2)) w
              else Ok (Continue (collapsed p s), w)).
  { rewrite (handle_key p s ev Ht). cbv zeta. rewrite Hk.
    change (KeyBackspace =? KeyCtrlC) with false.
    change (KeyBackspace =? KeyCtrlD) with false.
    change (KeyBackspace =? KeyCr) with false.
    change (KeyBackspace =? KeyBackspace) with true. cbv iota.
    unfold bind at 1. rewrite (MaybeUseHistory_valid p s w Hv).
    rewrite line_collapsed. now destruct (0 <? len (effectiveLine p s)). }
  split.
  - intros He. rewrite E, collapsed_state, He. reflexivity.
  - intros He s'.
    assert (Hlen : (0 < String.length (effectiveLine p s))%nat).
    { destruct (effectiveLine p s); [contradiction | simpl; lia]. }
    assert (Hpos : (0 <? len (effectiveLine p s)) = true)
      by (apply Z.ltb_lt; unfold len; lia).
    rewrite E, Hpos. unfold bind.
    rewrite (Edit_state p chop (collapsed p s) w Hw (valid_collapsed p s)).
    assert (Heff : effectiveLine p (collapsed p s) = effectiveLine p s)
      by (rewrite collapsed_state; reflexivity).
    rewrite Heff.
    assert (Hpr : prompt (collapsed p s) = prompt s)
      by (rewrite collapsed_state; reflexivity).
    rewrite Hpr. split; [reflexivity|].
    unfold isPrefix, chop, prefix.
    destruct (substring_prefix (Z.to_nat (len (effectiveLine p s) - 1))
                (effectiveLine p s)) as [Hp Hl].
    split; [exact Hp|]. rewrite Hl. unfold len. lia.
Qed.

Lemma handle_backspace_witness :
  let p := mkPrompt ["ls"; "pwd"]%string None in
  let s := mkState "$ " "" 1 None in
  0 <= Width (terminal console) /\ valid p s
  /\ effectiveLine p s <> EmptyString
  /\ exists w',
       handle p s (keyEvent KeyBackspace) console
       = Ok (Continue (mkState "$ " "pw" (-1) None), w').
Proof.
  cbv zeta.
  assert (Hw : 0 <= Width (terminal console)) by (cbn; lia).
  assert (Hv : valid (mkPrompt ["ls"; "pwd"]%string None) (mkState "$ " "" 1 None))
    by (right; cbn; lia).
  assert (Hne : effectiveLine (mkPrompt ["ls"; "pwd"]%string None)
                              (mkState "$ " "" 1 None) <> EmptyString)
    by discriminate.
  split; [exact Hw|]. split; [exact Hv|]. split; [exact Hne|].
  destruct (handle_backspace _ _ (keyEvent KeyBackspace) console
              eq_refl eq_refl Hw Hv) as [_ H].
  destruct (H Hne) as [E _]. eexists. exact E.
Defined.

(** X20.  Events the loop has no branch for change nothing: a Resize event,
    a key event whose key is none of the ten handled keys (Left, Right, Home,
    Delete, the other control keys, ...), and Tab while no completion
    callback is set leave the state as it is and write nothing. *)
Theorem handle_ignores (p : Prompt) (s : promptState) (ev : Event) (w : World) :
  evType ev = EventResize
  \/ (evType ev = EventKey /\ ~ In (evKey ev) handledKeys)
  \/ (evType ev = EventKey /\ evKey ev = KeyTab /\ completionFn p = None) ->
  handle p s ev w = Ok (Continue s, w).
Proof.
  intros [H|[[Ht Hn]|(Ht & Hk & Hfn)]].
  - unfold handle. now rewrite H.
  - rewrite (handle_key p s ev Ht). cbv zeta.
    unfold handledKeys in Hn. cbn [In] in Hn.
    repeat match goal with
           | |- context [evKey ev =? ?k] =>
             destruct (Z.eqb_spec (evKey ev) k) as [E|_];
               [exfalso; apply Hn; rewrite E; tauto|]
           end.
    reflexivity.
  - rewrite (handle_key p s ev Ht). cbv zeta. rewrite Hk.
    change (KeyTab =? KeyCtrlC) with false. change (KeyTab =? KeyCtrlD) with false.
    change (KeyTab =? KeyCr) with false. change (KeyTab =? KeyBackspace) with false.
    change (KeyTab =? KeyTab) with true. cbv iota.
    unfold bind, CompleteSuggest. now rewrite Hfn.
Qed.

Lemma handle_ignores_witness :
  (evType (keyEvent KeyLeft) = EventKey /\ ~ In (evKey (keyEvent KeyLeft)) handledKeys)
  /\ handle (mkPrompt [] None) (mkState "$ " "ab" (-1) None) (keyEvent KeyLeft) console
     = Ok (Continue (mkState "$ " "ab" (-1) None), console).
Proof.
  assert (H : evType (keyEvent KeyLeft) = EventKey
              /\ ~ In (evKey (keyEvent KeyLeft)) handledKeys).
  { split; [reflexivity|]. unfold handledKeys. cbn.
    intros H. repeat (destruct H as [H|H]; [discriminate H|]). exact H. }
  split; [exact H|].
  apply handle_ignores. right. left. exact H.
Defined.

(** X21.  Up and Down undo each other.  From every state of the editor but
    the oldest entry (index 0), Down after Up gives the state back; from
    every browsed entry, Up after Down gives the state back. *)
Theorem history_up_down_round_trip (p : Prompt) (s : promptState) (w : World) :
  0 <= Width (terminal w) -> valid p s ->
  (exists s1 w1 s2 w2,
     HistoryPrevious p s w = Ok (s1, w1)
     /\ HistoryNext p s1 w1 = Ok (s2, w2)
     /\ (historyIndex s <> 0 -> s2 = s))
  /\ (exists s1 w1 s2 w2,
        HistoryNext p s w = Ok (s1, w1)
        /\ HistoryPrevious p s1 w1 = Ok (s2, w2)
        /\ (historyIndex s <> -1 -> s2 = s)).
Proof.
  intros Hw Hv.
  assert (Hset : forall i, i = historyIndex s -> setHistoryIndex i s = s)
    by (intros i ->; now destruct s).
  split.
  - pose proof (valid_indexAfterUp p s Hv) as Hv1.
    do 4 eexists.
    split; [exact (HistoryPrevious_valid p s w Hw Hv)|].
    split; [apply HistoryNext_valid; [exact Hw | exact Hv1]|].
    intros H0. cbn [historyIndex setHistoryIndex].
    change (mkState (prompt s) (line s) ?i (completionOptions s))
      with (setHistoryIndex i s).
    apply Hset. unfold indexAfterDown, indexAfterUp, lastIndex.
    destruct (historyIndex s =? -1) eqn:E1.
    + apply Z.eqb_eq in E1.
      destruct (0 <? Z.of_nat (List.length (history p))) eqn:E2.
      * rewrite Z.eqb_refl. cbn [orb]. lia.
      * rewrite E1. rewrite orb_true_r. reflexivity.
    + apply Z.eqb_neq in E1. destruct Hv as [Hv|Hv]; [contradiction|].
      destruct (0 <? historyIndex s) eqn:E2; [|apply Z.ltb_ge in E2; lia].
      destruct (historyIndex s - 1 =? Z.of_nat (List.length (history p)) - 1) eqn:E3;
        [apply Z.eqb_eq in E3; lia|].
      destruct (historyIndex s - 1 =? -1) eqn:E4; [apply Z.eqb_eq in E4; lia|].
      cbn [orb]. lia.
  - pose proof (valid_indexAfterDown p s Hv) as Hv1.
    do 4 eexists.
    split; [exact (HistoryNext_valid p s w Hw Hv)|].
    split; [apply HistoryPrevious_valid; [exact Hw | exact Hv1]|].
    intros H0. cbn [historyIndex setHistoryIndex].
    change (mkState (prompt s) (line s) ?i (completionOptions s))
      with (setHistoryIndex i s).
    apply Hset. unfold indexAfterDown, indexAfterUp, lastIndex.
    destruct Hv as [Hv|Hv]; [contradiction|].
    destruct (historyIndex s =? Z.of_nat (List.length (history p)) - 1) eqn:E1.
    + cbn [orb]. change (-1 =? -1) with true. cbv iota.
      apply Z.eqb_eq in E1.
      destruct (0 <? Z.of_nat (List.length (history p))) eqn:E2;
        [lia | apply Z.ltb_ge in E2; lia].
    + destruct (historyIndex s =? -1) eqn:E2; [apply Z.eqb_eq in E2; lia|].
      cbn [orb].
      destruct (historyIndex s + 1 =? -1) eqn:E3; [apply Z.eqb_eq in E3; lia|].
      destruct (0 <? historyIndex s + 1) eqn:E4; [lia | apply Z.ltb_ge in E4; lia].
Qed.

Lemma history_up_down_round_trip_witness :
  let p := mkPrompt ["a"; "b"; "c"]%string None in
  let s := mkState "> " "draft" (-1) None in
  0 <= Width (terminal console) /\ valid p s
  /\ exists s1 w1 w2,
       HistoryPrevious p s console = Ok (s1, w1)
       /\ HistoryNext p s1 w1 = Ok (s, w2).
Proof.
  cbv zeta.
  assert (Hw : 0 <= Width (terminal console)) by (cbn; lia).
  assert (Hv : valid (mkPrompt ["a"; "b"; "c"]%string None)
                     (mkState "> " "draft" (-1) None)) by now left.
  split; [exact Hw|]. split; [exact Hv|].
  destruct (history_up_down_round_trip _ _ _ Hw Hv)
    as [(s1 & w1 & s2 & w2 & HU & HD & Heq) _].
  exists s1, w1, w2. split; [exact HU|].
  rewrite <- (Heq ltac:(discriminate)). exact HD.
Defined.


Lemma of_bytes_app (a b : list Z) :
  of_bytes (a ++ b) = (of_bytes a ++ of_bytes b)%string.
Proof.
  unfold of_bytes. induction a as [|x a IH]; simpl; [reflexivity | now rewrite IH].
Qed.

Lemma of_runes_cons (r : rune) (rs : list rune) :
  of_runes (r :: rs) = (of_rune r ++ of_runes rs)%string.
Proof. unfold of_runes, of_rune. simpl. apply of_bytes_app. Qed.

Lemma editLoop_typed_then_Enter (p : Prompt) (rs : list rune) (promptText l : string)
      (w : World) :
  0 <= Width (terminal w) ->
  exists w',
    editLoop p (mkState promptText l (-1) None)
             (map runeEvent rs ++ [keyEvent KeyCr]) w
    = Ok (inr ((l ++ of_runes rs)%string, None), w')
    /\ asked w' = asked w.
Proof.
  revert l w. induction rs as [|r rs IH]; intros l w Hw.
  - cbn [map app editLoop]. unfold bind.
    rewrite (handle_Enter p _ (keyEvent KeyCr) w eq_refl eq_refl) by now left.
    eexists.
    split; [unfold effectiveLine; cbn; rewrite append_nil_r; reflexivity
           | reflexivity].
  - cbn [map app editLoop]. unfold bind at 1.
    rewrite (handle_typed p _ (runeEvent r) w eq_refl eq_refl Hw) by now left.
    cbn [prompt evRune runeEvent].
    change (effectiveLine p (mkState promptText l (-1) None)) with l.
    destruct (IH (l ++ of_rune r)%string
                 (mkWorld (rendered p (mkState promptText (l ++ of_rune r) (-1) None)
                             (terminal w)) (asked w)))
      as (w' & E & Ha); [exact Hw|].
    exists w'. rewrite E, of_runes_cons, append_assoc. split; [reflexivity | exact Ha].
Qed.

(** X23.  Typing and Enter: from the start of [Prompt], rune events followed
    by Enter make [Prompt] return, without error, the UTF-8 encodings of the
    runes in the order typed; the completion callback is not called. *)
Theorem Prompt_returns_typed_line
        (p : Prompt) (promptText : string) (rs : list rune) (w : World) :
  0 <= Width (terminal w) ->
  exists w',
    PromptLoop p promptText (map runeEvent rs ++ [keyEvent KeyCr]) w
    = Ok (inr (of_runes rs, None), w')
    /\ asked w' = asked w.
Proof.
  intros Hw. unfold PromptLoop, bind, puts, onTerminal.
  destruct (editLoop_typed_then_Enter p rs promptText EmptyString
              (mkWorld (Puts promptText [] (terminal w)) (asked w)) Hw)
    as (w' & E & Ha).
  exists w'. split; [exact E | exact Ha].
Qed.

Lemma Prompt_returns_typed_line_witness :
  0 <= Width (terminal console)
  /\ exists w',
       PromptLoop NewPrompt "$ " (map runeEvent [108; 115] ++ [keyEvent KeyCr]) console
       = Ok (inr ("ls"%string, None), w').
Proof.
  assert (Hw : 0 <= Width (terminal console)) by (cbn; lia).
  split; [exact Hw|].
  destruct (Prompt_returns_typed_line NewPrompt "$ " [108; 115] console Hw)
    as (w' & E & _).
  exists w'. exact E.
Defined.

Lemma map_ordinary_printable (seq : list rune) :
  Forall (fun r => 27 < r /\ r <> 127) seq -> map ordinary seq = map runeEvent seq.
Proof.
  induction 1 as [|r seq [H1 H2] _ IH]; [reflexivity|].
  cbn [map]. rewrite IH. f_equal. unfold ordinary.
  destruct (r <? 27) eqn:E1; [apply Z.ltb_lt in E1; lia|].
  destruct (r =? 127) eqn:E2; [apply Z.eqb_eq in E2; contradiction|].
  reflexivity.
Qed.

(** X24.  From the keyboard to the line: when the runes gathered in one
    sequence are all above 27 and none is 127, and a carriage return ends
    the sequence, the events the decode loop sends make [Prompt] return the
    UTF-8 encodings of those runes, without error. *)
Theorem decoded_line_is_returned
        (p : Prompt) (promptText : string) (seq : list rune) (w : World) :
  0 <= Width (terminal w) ->
  Forall (fun r => 27 < r /\ r <> 127) seq ->
  exists w',
    PromptLoop p promptText (decodeSeq (seq ++ [13])) w
    = Ok (inr (of_runes seq, None), w').
Proof.
  intros Hw Hp.
  assert (Hne : Forall (fun r => r <> KeyEsc) seq).
  { eapply Forall_impl; [|exact Hp]. intros r [H _]. unfold KeyEsc. lia. }
  assert (E : decodeSeq (seq ++ [13]) = map runeEvent seq ++ [keyEvent KeyCr]).
  { pose proof (decodeSeq_skip_prefix seq [13] Hne) as E0.
    rewrite (map_ordinary_printable seq Hp) in E0. exact E0. }
  rewrite E.
  destruct (editLoop_typed_then_Enter p seq promptText EmptyString
              (mkWorld (Puts promptText [] (terminal w)) (asked w)) Hw)
    as (w' & E' & _).
  exists w'. exact E'.
Qed.

Lemma decoded_line_is_returned_witness :
  0 <= Width (terminal console)
  /\ Forall (fun r => 27 < r /\ r <> 127) [112; 119; 100]
  /\ exists w',
       PromptLoop NewPrompt "$ " (decodeSeq [112; 119; 100; 13]) console
       = Ok (inr ("pwd"%string, None), w').
Proof.
  assert (Hw : 0 <= Width (terminal console)) by (cbn; lia).
  assert (Hp : Forall (fun r => 27 < r /\ r <> 127) [112; 119; 100])
    by (repeat constructor; lia).
  split; [exact Hw|]. split; [exact Hp|].
  exact (decoded_line_is_returned NewPrompt "$ " [112; 119; 100] console Hw Hp).
Defined.

(** X25.  The line appended last is the one Up recalls: after
    [AppendHistory], Up and Enter at the start of the next [Prompt] return
    that line, with no error. *)
Theorem appended_line_is_recalled
        (p : Prompt) (l promptText : string) (w : World) :
  0 <= Width (terminal w) ->
  exists w',
    PromptLoop (AppendHistory l p) promptText [keyUp; keyEvent KeyCr] w
    = Ok (inr (l, None), w').
Proof.
  intros Hw. unfold PromptLoop, bind at 1, puts, onTerminal.
  rewrite editLoop_keyUp; [|exact Hw|now left].
  cbn [editLoop]. unfold bind.
  set (q := AppendHistory l p).
  set (s1 := setHistoryIndex (indexAfterUp q (historyIndex (initialState promptText)))
               (initialState promptText)).
  assert (Hi : historyIndex s1 = Z.of_nat (List.length (history p))).
  { unfold s1, indexAfterUp, lastIndex, q, AppendHistory.
    cbn [historyIndex setHistoryIndex initialState history].
    change (-1 =? -1) with true. cbv iota.
    rewrite length_app. cbn [List.length].
    destruct (0 <? Z.of_nat (List.length (history p) + 1)) eqn:E;
      [lia | apply Z.ltb_ge in E; lia]. }
  assert (Hv : valid q s1).
  { right. rewrite Hi. unfold q, AppendHistory. cbn [history].
    rewrite length_app. cbn [List.length]. lia. }
  rewrite (handle_Enter q s1 (keyEvent KeyCr) _ eq_refl eq_refl Hv).
  eexists. do 3 f_equal.
  unfold effectiveLine. rewrite Hi.
  destruct (Z.of_nat (List.length (history p)) =? -1) eqn:E;
    [apply Z.eqb_eq in E; lia|].
  rewrite Nat2Z.id. unfold q, AppendHistory. cbn [history].
  now rewrite nth_middle.
Qed.

Lemma appended_line_is_recalled_witness :
  0 <= Width (terminal console)
  /\ exists w',
       PromptLoop (AppendHistory "make" (mkPrompt ["ls"%string] None)) "$ "
                  [keyUp; keyEvent KeyCr] console
       = Ok (inr ("make"%string, None), w').
Proof.
  assert (Hw : 0 <= Width (terminal console)) by (cbn; lia).
  split; [exact Hw|].
  exact (appended_line_is_recalled (mkPrompt ["ls"%string] None) "make" "$ " console Hw).
Defined.

(* ------------------------------------------------------------------ *)
(** ** Loading a history *)

Lemma length_bytes (s : string) : List.length (bytes s) = String.length s.
Proof.
  unfold bytes. rewrite length_map.
  induction s as [|c s IH]; simpl; [reflexivity | now rewrite IH].
Qed.

Lemma decodeRune_width (a : Z) (t : list Z) :
  (1 <= snd (decodeRune (a :: t)) <= List.length (a :: t))%nat.
Proof.
  unfold decodeRune.
  repeat match goal with
         | |- context [if ?c then _ else _] => destruct c
         | |- context [match ?l with [] => _ | _ :: _ => _ end] => destruct l
         end; cbn; lia.
Qed.

Lemma rangeFrom_index_bounds (fuel : nat) (i : Z) (s : list Z) (j : Z) :
  In j (map fst (rangeFrom fuel i s)) -> i <= j < i + Z.of_nat (List.length s).
Proof.
  revert i s. induction fuel as [|fuel IH]; intros i s; simpl; [contradiction|].
  destruct s as [|a t]; [contradiction|].
  pose proof (decodeRune_width a t) as Hw.
  destruct (decodeRune (a :: t)) as [c w]. cbn [snd] in Hw.
  cbn [map fst In]. intros [<-|H].
  - cbn [List.length]. lia.
  - apply IH in H. rewrite length_skipn in H. lia.
Qed.

Lemma LoadHistory_body_no_newline_index (l : list Z) (hist : list string) (buf : string) :
  ~ In 10 l -> fst (fold_left LoadHistory_body l (hist, buf)) = hist.
Proof.
  revert hist buf. induction l as [|r l IH]; intros hist buf H; [reflexivity|].
  cbn [fold_left LoadHistory_body].
  destruct (Z.eqb_spec r 10) as [E|E]; [exfalso; apply H; now left|].
  apply IH. intros Hin. apply H. now right.
Qed.

Lemma LoadHistory_body_range (fuel : nat) (i : Z) (s : list Z)
      (hist : list string) (buf : string) :
  exists extra,
    fst (fold_left LoadHistory_body (map fst (rangeFrom fuel i s)) (hist, buf))
    = hist ++ extra
    /\ (List.length extra <= 1)%nat
    /\ (i + Z.of_nat (List.length s) <= 10 -> extra = []).
Proof.
  revert i s hist buf. induction fuel as [|fuel IH]; intros i s hist buf.
  - exists []. cbn. rewrite app_nil_r. repeat split. lia.
  - cbn [rangeFrom]. destruct s as [|a t].
    + exists []. cbn. rewrite app_nil_r. repeat split. lia.
    + pose proof (decodeRune_width a t) as Hw.
      destruct (decodeRune (a :: t)) as [c w] eqn:Ed. cbn [snd] in Hw.
      cbn [map fst fold_left LoadHistory_body].
      destruct (Z.eqb_spec i 10) as [E|E].
      * exists [buf]. split; [|split].
        -- apply LoadHistory_body_no_newline_index. intros Hin.
           apply rangeFrom_index_bounds in Hin. lia.
        -- cbn. lia.
        -- cbn [List.length] in *. lia.
      * destruct (IH (i + Z.of_nat w) (skipn w (a :: t)) hist (buf ++ of_rune i)%string)
          as (extra & E1 & E2 & E3).
        exists extra. split; [exact E1|]. split; [exact E2|].
        intros H. apply E3. rewrite length_skipn. lia.
Qed.

(** X26.  Whatever the text, [LoadHistory] keeps every entry of the history
    and the callback, and adds at most one entry; for a text of at most ten
    bytes it adds none. *)
Theorem LoadHistory_adds_at_most_one (text : string) (p : Prompt) :
  exists extra,
    history (LoadHistory text p) = history p ++ extra
    /\ (List.length extra
        <= if (String.length text <=? 10)%nat then 0 else 1)%nat
    /\ completionFn (LoadHistory text p) = completionFn p.
Proof.
  unfold LoadHistory, range.
  destruct (LoadHistory_body_range (List.length (bytes text)) 0 (bytes text)
              (history p) EmptyString) as (extra & E1 & E2 & E3).
  destruct (fold_left _ _ _) as [hist buf]. cbn [fst] in E1.
  exists extra. cbn [history completionFn]. split; [exact E1|].
  split; [|reflexivity].
  destruct (String.length text <=? 10)%nat eqn:El; [|exact E2].
  apply Nat.leb_le in El. rewrite E3; [cbn; lia|].
  rewrite length_bytes. lia.
Qed.

(* ------------------------------------------------------------------ *)
(** ** The common root of ASCII candidates *)

Lemma bytes_app (a b : string) : bytes (a ++ b) = bytes a ++ bytes b.
Proof.
  unfold bytes. induction a as [|x a IH]; simpl; [reflexivity | now rewrite IH].
Qed.

Lemma byte_of_ascii_inj (x y : ascii) : byte_of_ascii x = byte_of_ascii y -> x = y.
Proof.
  unfold byte_of_ascii. intros H. apply N2Z.inj in H.
  rewrite <- (ascii_N_embedding x), <- (ascii_N_embedding y). now rewrite H.
Qed.

Lemma byte_eqb_ascii (x y : ascii) :
  (byte_of_ascii x =? byte_of_ascii y) = Ascii.eqb x y.
Proof.
  destruct (Ascii.eqb_spec x y) as [->|N].
  - apply Z.eqb_refl.
  - apply Z.eqb_neq. intros H. apply N. now apply byte_of_ascii_inj.
Qed.

Lemma rangeFrom_ascii (fuel : nat) (i : Z) (l : list Z) :
  forallb (fun b => b <? 0x80) l = true ->
  (List.length l <= fuel)%nat ->
  rangeFrom fuel i l = indexed i l.
Proof.
  revert i l. induction fuel as [|fuel IH]; intros i l Ha Hl.
  - destruct l; [reflexivity | cbn in Hl; lia].
  - destruct l as [|b t]; [reflexivity|].
    cbn [forallb] in Ha. apply andb_true_iff in Ha. destruct Ha as [Hb Ht].
    cbn [rangeFrom decodeRune]. rewrite Hb. cbn [skipn indexed Z.of_nat].
    f_equal. apply IH; [exact Ht | cbn in Hl; lia].
Qed.

Lemma map_snd_indexed (i : Z) (l : list Z) : map snd (indexed i l) = l.
Proof. revert i. induction l as [|b l IH]; intros i; simpl; [|rewrite IH]; reflexivity. Qed.

Lemma range_ascii (s : string) :
  allAscii s = true -> range s = indexed 0 (bytes s).
Proof. intros H. unfold range. now apply rangeFrom_ascii. Qed.

Lemma runes_ascii (s : string) : allAscii s = true -> runes s = bytes s.
Proof. intros H. unfold runes. rewrite range_ascii by exact H. apply map_snd_indexed. Qed.

Lemma substring_app_length (pre rest : string) :
  String.substring 0 (String.length pre) (pre ++ rest) = pre.
Proof.
  induction pre as [|c pre IH]; simpl.
  - now destruct rest.
  - now rewrite IH.
Qed.

Lemma scanOption_ascii (o2 : string) :
  forall (pre best2 : string),
    allAscii (pre ++ best2) = true ->
    scanOption (pre ++ best2) (pre ++ o2)
      (indexed (Z.of_nat (String.length pre)) (bytes o2))
    = Ok (match firstMismatch o2 best2 with
          | Some r => (pre ++ r)%string
          | None => (pre ++ best2)%string
          end).
Proof.
  induction o2 as [|c o2 IH]; intros pre best2 Ha; [reflexivity|].
  change (bytes (String c o2)) with (byte_of_ascii c :: bytes o2).
  cbn [indexed scanOption].
  destruct best2 as [|b best2].
  - assert (E : (len (pre ++ "") <=? Z.of_nat (String.length pre)) = true).
    { apply Z.leb_le. unfold len. rewrite append_nil_r. lia. }
    rewrite E. reflexivity.
  - assert (E : (len (pre ++ String b best2) <=? Z.of_nat (String.length pre)) = false).
    { apply Z.leb_gt. unfold len. rewrite length_append. simpl. lia. }
    rewrite E. rewrite (runes_ascii _ Ha), Nat2Z.id, bytes_app.
    rewrite nth_error_app2 by (rewrite length_bytes; lia).
    rewrite length_bytes, Nat.sub_diag.
    change (bytes (String b best2)) with (byte_of_ascii b :: bytes best2).
    cbn [nth_error]. rewrite byte_eqb_ascii. cbn [firstMismatch].
    destruct (Ascii.eqb_spec c b) as [->|N]; cbn [negb].
    + assert (Ep : forall x, (pre ++ String b x = (pre ++ String b "") ++ x)%string)
        by (intros x; now rewrite append_assoc).
      rewrite (Ep best2), (Ep o2).
      replace (Z.of_nat (String.length pre) + 1)
        with (Z.of_nat (String.length (pre ++ String b ""))).
      2:{ rewrite length_append. simpl. lia. }
      rewrite IH by (rewrite <- Ep; exact Ha).
      destruct (firstMismatch o2 best2); cbn [option_map]; now rewrite <- ?Ep.
    + unfold prefix. rewrite Nat2Z.id, substring_app_length.
      now rewrite append_nil_r.
Qed.

Lemma scanOption_narrowed (best o : string) :
  allAscii best = true -> allAscii o = true ->
  scanOption best o (range o) = Ok (narrowed best o).
Proof.
  intros Hb Ho. rewrite (range_ascii o Ho).
  exact (scanOption_ascii o EmptyString best Hb).
Qed.

Lemma prefix_refl (a : string) : String.prefix a a = true.
Proof.
  induction a as [|x a IH]; simpl; [reflexivity|].
  destruct (ascii_dec x x); [exact IH | contradiction].
Qed.

Lemma prefix_trans (a b c : string) :
  String.prefix a b = true -> String.prefix b c = true -> String.prefix a c = true.
Proof.
  revert b c. induction a as [|x a IH]; intros [|y b] [|z c]; simpl;
    try reflexivity; try discriminate.
  destruct (ascii_dec x y) as [->|]; [|discriminate].
  destruct (ascii_dec y z) as [->|]; [|discriminate].
  apply IH.
Qed.

Lemma prefix_comparable (a b c : string) :
  String.prefix a c = true -> String.prefix b c = true ->
  String.prefix a b = true \/ String.prefix b a = true.
Proof.
  revert b c. induction a as [|x a IH]; intros [|y b] [|z c]; simpl;
    try (now left); try (now right); try discriminate.
  destruct (ascii_dec x z) as [->|]; [|discriminate].
  destruct (ascii_dec y z) as [->|]; [|discriminate].
  destruct (ascii_dec z z); [apply IH | contradiction].
Qed.

Lemma prefix_allAscii (a b : string) :
  String.prefix a b = true -> allAscii b = true -> allAscii a = true.
Proof.
  revert b. induction a as [|x a IH]; intros [|y b]; simpl;
    try reflexivity; try discriminate.
  destruct (ascii_dec x y) as [->|]; [|discriminate].
  unfold allAscii. change (bytes (String y ?s)) with (byte_of_ascii y :: bytes s).
  cbn [forallb]. intros Hp Hb. apply andb_true_iff in Hb. destruct Hb as [H1 H2].
  rewrite H1. cbn [andb]. exact (IH b Hp H2).
Qed.

Lemma firstMismatch_spec (a b : string) :
  match firstMismatch a b with
  | Some r => String.prefix r a = true /\ String.prefix r b = true
  | None => String.prefix a b = true \/ String.prefix b a = true
  end.
Proof.
  revert b. induction a as [|x a IH]; intros [|y b]; simpl;
    try (now left); try (now right).
  destruct (Ascii.eqb_spec x y) as [->|N]; [|now split].
  specialize (IH b). destruct (firstMismatch a b) as [r|]; simpl.
  - destruct (ascii_dec y y); [exact IH | contradiction].
  - destruct (ascii_dec y y); [exact IH | contradiction].
Qed.

Lemma narrowed_prefix (best o : string) :
  String.prefix (narrowed best o) best = true
  /\ (String.prefix (narrowed best o) o = true
      \/ String.prefix o (narrowed best o) = true).
Proof.
  unfold narrowed. pose proof (firstMismatch_spec o best) as H.
  destruct (firstMismatch o best) as [r|].
  - destruct H as [Ho Hb]. split; [exact Hb | now left].
  - split; [apply prefix_refl|]. destruct H as [H|H]; [now right | now left].
Qed.

Lemma commonRoot_ascii (others : list string) :
  forall first,
    allAscii first = true -> forallb allAscii others = true ->
    commonRoot first others = Ok (fold_left narrowed others first)
    /\ String.prefix (fold_left narrowed others first) first = true
    /\ Forall (fun o => String.prefix (fold_left narrowed others first) o = true
                        \/ String.prefix o (fold_left narrowed others first) = true)
              others.
Proof.
  induction others as [|o others IH]; intros first Hf Ho.
  - repeat split; [apply prefix_refl | constructor].
  - cbn [forallb] in Ho. apply andb_true_iff in Ho. destruct Ho as [Ho Hrest].
    destruct (narrowed_prefix first o) as [Hp Hc].
    assert (Hn : allAscii (narrowed first o) = true)
      by exact (prefix_allAscii _ _ Hp Hf).
    destruct (IH (narrowed first o) Hn Hrest) as (E & Hp' & Hall).
    cbn [commonRoot fold_left]. rewrite (scanOption_narrowed first o Hf Ho).
    split; [exact E|]. split; [exact (prefix_trans _ _ _ Hp' Hp)|].
    constructor; [|exact Hall].
    destruct Hc as [Hc|Hc].
    + left. exact (prefix_trans _ _ _ Hp' Hc).
    + exact (prefix_comparable _ _ _ Hp' Hc).
Qed.

(** X27.  For ASCII candidates the two loops of [CompleteSuggest] never
    panic.  They compare the candidates in order with the root found so far:
    a candidate that differs from it somewhere shortens it to their common
    part, a candidate that ends first, or that it is a prefix of, leaves it.
    The buffer after Tab is that root: a prefix of the first candidate, and
    for every other candidate a prefix of it or an extension of it.  The
    candidates are listed when there is more than one. *)
Theorem CompleteSuggest_ascii
        (p : Prompt) (s : promptState) (w : World)
        (fn : string -> option (list string))
        (first : string) (others : list string) :
  0 <= Width (terminal w) -> valid p s ->
  completionFn p = Some fn -> completionOptions s = None ->
  fn (line s) = Some (first :: others) ->
  forallb allAscii (first :: others) = true ->
  exists s' w',
    CompleteSuggest p s w = Ok (s', w')
    /\ line s' = fold_left narrowed others first
    /\ historyIndex s' = -1
    /\ isPrefix (line s') first = true
    /\ Forall (fun o => isPrefix (line s') o = true \/ isPrefix o (line s') = true)
              others
    /\ written (terminal w')
       = written (if 1 <? Z.of_nat (List.length (first :: others))
                  then listed (first :: others) (terminal w) else terminal w)
         ++ renderWrites (Width (terminal w)) (prompt s) (line s').
Proof.
  intros Hw Hv Hfn Hc Hopts Ha.
  cbn [forallb] in Ha. apply andb_true_iff in Ha. destruct Ha as [Hf Ho].
  destruct (commonRoot_ascii others first Hf Ho) as (E & Hp & Hall).
  pose proof (CompleteSuggest_fresh p s w fn first others _ Hw Hv Hfn Hc Hopts E) as H.
  cbv zeta in H. eexists. eexists. split; [exact H|].
  cbn [line historyIndex terminal]. repeat split; try assumption.
  unfold rendered, renderWrites, effectiveLine.
  cbn [written Puts SetCursorColumn historyIndex line prompt Width].
  change (-1 =? -1) with true. cbv iota.
  rewrite <- !app_assoc. cbn [app].
  destruct (1 <? Z.of_nat (List.length (first :: others)));
    [rewrite Width_listed|]; reflexivity.
Qed.

Lemma CompleteSuggest_ascii_witness :
  let p := mkPrompt [] (Some (always ["make"; "man"; "mkdir"]%string)) in
  0 <= Width (terminal console)
  /\ forallb allAscii ["make"; "man"; "mkdir"]%string = true
  /\ exists s' w',
       CompleteSuggest p (initialState "$ ") console = Ok (s', w')
       /\ line s' = "m"%string.
Proof.
  cbv zeta.
  assert (Hw : 0 <= Width (terminal console)) by (cbn; lia).
  split; [exact Hw|]. split; [reflexivity|].
  destruct (CompleteSuggest_ascii
              (mkPrompt [] (Some (always ["make"; "man"; "mkdir"]%string)))
              (initialState "$ ") console
              (always ["make"; "man"; "mkdir"]%string) "make" ["man"; "mkdir"]%string
              Hw (or_introl eq_refl) eq_refl eq_refl eq_refl eq_refl)
    as (s' & w' & E & Hl & _).
  exists s', w'. split; [exact E | exact Hl].
Defined.
